(** * The filters module of AdGuardHome (filters/filters.go)

    A shallow embedding of the filter store, the downloader, the refresh
    scheduler's loop body and the swap applier, with the properties their
    specification states about them.

    Go values are modelled as follows:
    - [string] is a Rocq [string] (a sequence of bytes), [[]byte] is a
      [list Byte.byte];
    - [uint64] and [uint32] are [N], [int] and [int64] are [Z], with the
      wrap-around of conversions written out;
    - [time.Time] is the number of nanoseconds since the Unix epoch, [Z];
    - the file system is a finite map from path names to file contents;
    - the observers registered with [AddUser] are opaque callbacks; a call
      is recorded as an event of the trace. *)

From Stdlib Require Import ZArith NArith List Ascii String DecimalString DecimalN Lia.
From Equations Require Import Equations.
From stdpp Require Import gmap strings list.


(** ** Go's standard library, as far as the module uses it *)

Module Go.

(** The byte ['\n'] and friends. *)
Definition newline : ascii := ascii_of_nat 10.
Definition slash : ascii := "/"%char.

(** [fmt.Sprintf("%d", n)] for an unsigned [n]: decimal, no leading zero. *)
Definition itoa (n : N) : string := NilEmpty.string_of_uint (N.to_uint n).

(** [strings.Split(s, string(c))]: the chunks between the separators. *)
Fixpoint split (c : ascii) (s : string) : list string :=
  match s with
  | EmptyString => [EmptyString]
  | String a s' =>
      if Ascii.eqb a c then EmptyString :: split c s'
      else match split c s' with
           | h :: t => String a h :: t
           | [] => [String a EmptyString]
           end
  end.

(** [strings.Join(l, "/")]. *)
Fixpoint join_slash (l : list string) : string :=
  match l with
  | [] => EmptyString
  | [x] => x
  | x :: tl => x ++ String slash (join_slash tl)
  end.

Definition rooted (p : string) : bool :=
  match p with
  | String a _ => Ascii.eqb a slash
  | EmptyString => false
  end.

(** One path element seen by [filepath.Clean]; [stk] is the output so far,
    last element first.  An empty element and ["."] are dropped, [".."]
    removes the last element when there is one to remove and is kept
    otherwise unless the path is rooted. *)
Definition clean_step (root : bool) (stk : list string) (c : string) : list string :=
  if String.eqb c "" || String.eqb c "." then stk
  else if String.eqb c ".." then
    match stk with
    | top :: rest => if String.eqb top ".." then ".." :: stk else rest
    | [] => if root then [] else [".."]
    end
  else c :: stk.

(** [filepath.Clean] on a system whose separator is ['/']. *)
Definition Clean (p : string) : string :=
  if String.eqb p "" then "."
  else
    let stk := fold_left (clean_step (rooted p)) (split slash p) [] in
    let body := join_slash (rev stk) in
    if rooted p then String slash body
    else if String.eqb body "" then "." else body.

(** [filepath.Join(dir, name)]: empty elements are skipped, the rest are
    joined with the separator and cleaned. *)
Definition Join (dir name : string) : string :=
  if String.eqb dir "" then
    if String.eqb name "" then "" else Clean name
  else Clean (dir ++ String slash name).

(** [time.Time], in nanoseconds since the epoch, and [time.Duration], a
    signed 64-bit number of nanoseconds. *)
Definition Time := Z.
Definition Duration := Z.

Definition int64 (z : Z) : Z := ((z + 2 ^ 63) mod 2 ^ 64 - 2 ^ 63)%Z.
Definition uint64 (z : Z) : N := Z.to_N (z mod 2 ^ 64).

Definition Second : Duration := 1000000000%Z.
Definition Hour : Duration := (3600 * Second)%Z.

(** [t.Unix()]: whole seconds since the epoch, rounded down. *)
Definition Unix (t : Time) : Z := (t / Second)%Z.

(** [t.Add(d)]. *)
Definition Add (t : Time) (d : Duration) : Time := (t + d)%Z.

(** [time.Duration(h) * time.Hour] for a [uint32] [h]: a product of
    [int64] values, which wraps. *)
Definition hours (h : N) : Duration := int64 (Z.of_N h * Hour).

End Go.


(** ** The data model (filters.go, lines 17-58) *)

Definition EventBeforeUpdate : N := 0.
Definition EventAfterUpdate : N := 1.

(** An [EventHandler] is a callback of another module; the model knows it
    by a name and records its calls. *)
Definition EventHandler := nat.

Record Filter := mkFilter {
  ID : N;
  Enabled : bool;
  Name : string;
  URL : string;
  Path : string;
  RuleCount : N;
  LastUpdated : Go.Time;
  newID : N;
  nextUpdate : Go.Time
}.

(** The zero [time.Time] is January 1 of year 1. *)
Definition zeroTime : Go.Time := (-62135596800 * Go.Second)%Z.

(** [Filter{}]. *)
Definition zeroFilter : Filter :=
  mkFilter 0 false "" "" "" 0 zeroTime 0 zeroTime.

Definition set_ID (v : N) (f : Filter) : Filter :=
  mkFilter v (Enabled f) (Name f) (URL f) (Path f) (RuleCount f)
    (LastUpdated f) (newID f) (nextUpdate f).
Definition set_Enabled (v : bool) (f : Filter) : Filter :=
  mkFilter (ID f) v (Name f) (URL f) (Path f) (RuleCount f)
    (LastUpdated f) (newID f) (nextUpdate f).
Definition set_Name (v : string) (f : Filter) : Filter :=
  mkFilter (ID f) (Enabled f) v (URL f) (Path f) (RuleCount f)
    (LastUpdated f) (newID f) (nextUpdate f).
Definition set_URL (v : string) (f : Filter) : Filter :=
  mkFilter (ID f) (Enabled f) (Name f) v (Path f) (RuleCount f)
    (LastUpdated f) (newID f) (nextUpdate f).
Definition set_Path (v : string) (f : Filter) : Filter :=
  mkFilter (ID f) (Enabled f) (Name f) (URL f) v (RuleCount f)
    (LastUpdated f) (newID f) (nextUpdate f).
Definition set_RuleCount (v : N) (f : Filter) : Filter :=
  mkFilter (ID f) (Enabled f) (Name f) (URL f) (Path f) v
    (LastUpdated f) (newID f) (nextUpdate f).
Definition set_LastUpdated (v : Go.Time) (f : Filter) : Filter :=
  mkFilter (ID f) (Enabled f) (Name f) (URL f) (Path f) (RuleCount f)
    v (newID f) (nextUpdate f).
Definition set_newID (v : N) (f : Filter) : Filter :=
  mkFilter (ID f) (Enabled f) (Name f) (URL f) (Path f) (RuleCount f)
    (LastUpdated f) v (nextUpdate f).
Definition set_nextUpdate (v : Go.Time) (f : Filter) : Filter :=
  mkFilter (ID f) (Enabled f) (Name f) (URL f) (Path f) (RuleCount f)
    (LastUpdated f) (newID f) v.

(** [Conf]; the HTTP client is part of the environment below. *)
Record Conf := mkConf {
  FilterDir : string;
  UpdateIntervalHours : N;
  Proxylist : list Filter
}.

(** [Filters], the module object.  [confLock] has no counterpart: an
    operation of the model is one uninterrupted run of its critical
    sections. *)
Record Filters := mkFilters {
  filtersUpdated : bool;
  updateTaskRunning : bool;
  conf : Conf;
  Users : list EventHandler
}.

Definition set_Proxylist (l : list Filter) (fs : Filters) : Filters :=
  mkFilters (filtersUpdated fs) (updateTaskRunning fs)
    (mkConf (FilterDir (conf fs)) (UpdateIntervalHours (conf fs)) l)
    (Users fs).
Definition set_filtersUpdated (b : bool) (fs : Filters) : Filters :=
  mkFilters b (updateTaskRunning fs) (conf fs) (Users fs).

(** ** The world outside the module *)

Inductive error :=
| ErrExists                         (* filter with this Name or URL already exists *)
| ErrGet                            (* client.Get failed *)
| ErrStatus (code : Z)              (* status code: %d *)
| ErrRead                           (* ioutil.ReadAll failed *)
| ErrDownload (url : string) (cause : error)
| ErrWrite (path : string)          (* file.SafeWrite failed *)
| ErrRename (src dst : string).     (* os.Rename failed *)

(** What [client.Get(url)] and reading the body give. *)
Inductive Response :=
| GetFailed
| Resp (status : Z) (body : option (list Byte.byte)).

(** What happened, in the order it happened. *)
Inductive Event :=
| EvNotify (user : EventHandler) (flags : N)
| EvRename (src dst : string) (ok : bool)
| EvSleep (d : Go.Duration).

(** The behaviour of the outside world: the reading of the clock at the
    k-th call of [time.Now()], the answer of the HTTP client, and the
    writes and renames that the file system refuses. *)
Record Env := mkEnv {
  clock : nat -> Go.Time;
  http_get : string -> Response;
  write_fails : string -> bool;
  rename_fails : string -> string -> bool
}.

Record World := mkWorld {
  files : gmap string (list Byte.byte);
  trace : list Event;
  ticks : nat
}.

Definition set_files (m : gmap string (list Byte.byte)) (w : World) : World :=
  mkWorld m (trace w) (ticks w).
Definition emit (e : list Event) (w : World) : World :=
  mkWorld (files w) (trace w ++ e) (ticks w).

(** [time.Now()]. *)
Definition time_Now (env : Env) (w : World) : Go.Time * World :=
  (clock env (ticks w), mkWorld (files w) (trace w) (S (ticks w))).

(** [time.Sleep(d)]. *)
Definition time_Sleep (d : Go.Duration) (w : World) : World :=
  emit [EvSleep d] w.

(** [os.Rename(src, dst)]: the file at [src] replaces the one at [dst];
    it fails when there is no file at [src] or the system refuses. *)
Definition os_Rename (env : Env) (src dst : string) (w : World)
  : World * option error :=
  if rename_fails env src dst then
    (emit [EvRename src dst false] w, Some (ErrRename src dst))
  else
    match files w !! src with
    | None => (emit [EvRename src dst false] w, Some (ErrRename src dst))
    | Some c =>
        (emit [EvRename src dst true]
           (set_files (<[dst := c]> (delete src (files w))) w), None)
    end.

(** [file.SafeWrite(fname, data)] of golibs: on success the file at
    [fname] holds [data], on failure the file system is as before. *)
Definition SafeWrite (env : Env) (fname : string) (data : list Byte.byte)
  (w : World) : World * option error :=
  if write_fails env fname then (w, Some (ErrWrite fname))
  else (set_files (<[fname := data]> (files w)) w, None).

(** ** The downloader (filters.go, lines 146-209) *)

(** [download(client, url)]. *)
Definition download (env : Env) (url : string) : list Byte.byte + error :=
  match http_get env url with
  | GetFailed => inr ErrGet
  | Resp status body =>
      if negb (status =? 200)%Z then inr (ErrStatus status)
      else match body with
           | Some b => inl b
           | None => inr ErrRead
           end
  end.

(** Modelled from the spec: [util.SplitNext] is a function of this
    repository's [util] package, whose source is not at hand.  The
    specification says that the body is split into lines: the call
    returns the bytes before the first separator and leaves in [data]
    what follows it; without a separator it returns all of [data] and
    leaves it empty.  The pair is (the line, the new [data]). *)
Fixpoint SplitNext (data : string) (splitBy : ascii) : string * string :=
  match data with
  | EmptyString => (EmptyString, EmptyString)
  | String a s =>
      if Ascii.eqb a splitBy then (EmptyString, s)
      else let r := SplitNext s splitBy in (String a (fst r), snd r)
  end.

(** The test of lines 172-174: the line is empty or a comment. *)
Definition skipped (line : string) : bool :=
  match line with
  | EmptyString => true
  | String c _ => Ascii.eqb c "#"%char || Ascii.eqb c "!"%char
  end.

(** The loop of [parseFilter], lines 170-179.  The counter is an [int];
    it is at most the length of [data], so it does not wrap. *)
Equations? parseLoop (data : string) (rulesCount : Z) : Z
  by wf (String.length data) lt :=
parseLoop EmptyString rulesCount := rulesCount;
parseLoop (String a s) rulesCount :=
  let r := SplitNext (String a s) Go.newline in
  if skipped (fst r) then parseLoop (snd r) rulesCount
  else parseLoop (snd r) (rulesCount + 1).
Proof.
  all: assert (Hle : forall t, String.length (snd (SplitNext t Go.newline))
                               <= String.length t)
    by (intros t; induction t as [|b t IH]; simpl;
        [lia | destruct (Ascii.eqb b Go.newline); simpl; lia]).
  all: subst r; simpl; destruct (Ascii.eqb a Go.newline); simpl;
    [lia | specialize (Hle s); lia].
Qed.

(** [parseFilter(f, body)]; its error is always nil. *)
Definition parseFilter (f : Filter) (body : list Byte.byte) : Filter :=
  let data := string_of_list_byte body in
  let rulesCount := parseLoop data 0 in
  set_RuleCount (Go.uint64 rulesCount) f.

(** [fs.filterPath(f)]. *)
Definition filterPath (fs : Filters) (f : Filter) : string :=
  Go.Join (FilterDir (conf fs)) (Go.itoa (ID f) ++ ".txt").

(** [fs.nextFilterID()]. *)
Definition nextFilterID (env : Env) (w : World) : N * World :=
  let (now, w) := time_Now env w in
  (Go.uint64 (Go.Unix now), w).

(** [fs.downloadFilter(f)]: the updated [*f], the world, the error. *)
Definition downloadFilter (env : Env) (fs : Filters) (f : Filter) (w : World)
  : Filter * World * option error :=
  match download env (URL f) with
  | inr err => (f, w, Some (ErrDownload (URL f) err))
  | inl body =>
      let f := parseFilter f body in
      let fname := filterPath fs f in
      match SafeWrite env fname body w with
      | (w, Some err) => (f, w, Some err)
      | (w, None) =>
          let (now, w) := time_Now env w in
          (set_LastUpdated now f, w, None)
      end
  end.

Definition body_ex : list Byte.byte :=
  list_byte_of_string
    ("# comment" ++ String Go.newline ("rule1" ++ String Go.newline
       (String Go.newline ("rule2" ++ String Go.newline "")))).

(** ** The store (filters.go, lines 111-298) *)

(** [fs.AddUser(handler)]. *)
Definition AddUser (handler : EventHandler) (fs : Filters) : Filters :=
  mkFilters (filtersUpdated fs) (updateTaskRunning fs) (conf fs)
    (Users fs ++ [handler]).

(** [fs.NotifyUsers(flags)]: the handlers are called in the order of
    [fs.Users]. *)
Definition NotifyUsers (fs : Filters) (flags : N) (w : World) : World :=
  fold_left (fun w u => emit [EvNotify u flags] w) (Users fs) w.

(** [fs.List(flags)].  [make([]Filter, n)] is a slice of [n] zero
    records, and [append] adds after them. *)
Definition List (fs : Filters) (flags : N) : Filters * list Filter :=
  let ff := replicate (length (Proxylist (conf fs))) zeroFilter in
  let ff :=
    fold_left
      (fun ff f =>
         let nf := f in
         let nf := set_Path (filterPath fs f) nf in
         ff ++ [nf])
      (Proxylist (conf fs)) ff in
  (fs, ff).

(** [fs.Add(nf)]. *)
Definition Add (env : Env) (nf : Filter) (fs : Filters) (w : World)
  : Filters * World * option error :=
  if existsb (fun f => String.eqb (Name f) (Name nf)
                       || String.eqb (URL f) (URL nf))
       (Proxylist (conf fs))
  then (fs, w, Some ErrExists)
  else
    let (id, w) := nextFilterID env w in
    let nf := set_ID id nf in
    let nf := set_Enabled true nf in
    match downloadFilter env fs nf w with
    | (_, w, Some err) => (fs, w, Some err)
    | (nf, w, None) =>
        (set_Proxylist (Proxylist (conf fs) ++ [nf]) fs, w, None)
    end.

(** The variable of a [for _, f := range] loop: one variable for the
    whole loop (the language before Go 1.22, to which this code belongs:
    it imports io/ioutil and golibs/file), or a new one in each
    iteration (from Go 1.22 on).  The [go] directive that selects it is
    in go.mod, which is not among the sources. *)
Inductive LoopVar := PerLoop | PerIteration.

(** The address of [f] in iteration [i]. *)
Definition addr_of_f (sem : LoopVar) (i : nat) : nat :=
  match sem with
  | PerLoop => 0
  | PerIteration => i
  end.

(** The loop of [Delete], lines 241-247: [nf], the pointer [found] (an
    address, or nil) and the memory of the loop variables, from
    iteration [i] on. *)
Fixpoint Delete_loop (sem : LoopVar) (url : string) (i : nat)
  (l : list Filter) (nf : list Filter) (found : option nat)
  (mem : gmap nat Filter) : list Filter * option nat * gmap nat Filter :=
  match l with
  | [] => (nf, found, mem)
  | x :: tl =>
      let a := addr_of_f sem i in
      let mem := <[a := x]> mem in               (* f = Proxylist[i] *)
      if String.eqb (URL x) url then
        Delete_loop sem url (S i) tl nf (Some a) mem   (* found = &f *)
      else
        Delete_loop sem url (S i) tl (nf ++ [x]) found mem
  end.

(** [fs.Delete(url)]: the store and what the returned pointer points to
    ([None] for nil). *)
Definition Delete (sem : LoopVar) (url : string) (fs : Filters)
  : Filters * option Filter :=
  match Delete_loop sem url 0 (Proxylist (conf fs)) [] None ∅ with
  | (nf, Some a, mem) =>
      match mem !! a with
      | Some f =>
          (set_Proxylist nf fs, Some (set_Path (filterPath fs f) f))
      | None => (fs, None)
      end
  | (_, None, _) => (fs, None)
  end.

Definition StatusNotFound : Z := 1.
Definition StatusChangedEnabled : Z := 2.
Definition StatusChangedURL : Z := 4.

(** The loop of [Modify], lines 274-291.  [f] is a copy of the element:
    the assignments change the copy, which is dropped at [break]. *)
Fixpoint Modify_loop (url : string) (enabled : bool) (name newURL : string)
  (l : list Filter) (st : Z) : Z :=
  match l with
  | [] => st
  | f :: tl =>
      if String.eqb (URL f) url then
        let f := set_Name name f in
        let '(f, st) :=
          if negb (Bool.eqb (Enabled f) enabled)
          then (set_Enabled enabled f, Z.lor st StatusChangedEnabled)
          else (f, st) in
        let '(f, st) :=
          if negb (String.eqb (URL f) newURL)
          then (set_URL newURL f, Z.lor st StatusChangedURL)
          else (f, st) in
        st
      else Modify_loop url enabled name newURL tl st
  end.

(** [fs.Modify(url, enabled, name, newURL)]. *)
Definition Modify (url : string) (enabled : bool) (name newURL : string)
  (fs : Filters) : Filters * Z :=
  let st := Modify_loop url enabled name newURL (Proxylist (conf fs)) 0 in
  if (st =? 0)%Z then (fs, StatusNotFound) else (fs, st).

(** ** The scheduler and the swap applier (filters.go, lines 314-410) *)

(** The scan of [getNextToUpdate]: the index of the first enabled record
    that is due. *)
Fixpoint nextDue (now : Go.Time) (l : list Filter) : option nat :=
  match l with
  | [] => None
  | f :: tl =>
      if Enabled f && (Go.Unix (nextUpdate f) <=? Go.Unix now)%Z then Some 0
      else S <$> nextDue now tl
  end.

(** [fs.getNextToUpdate()]: the pointer it returns is the index of an
    element of [Proxylist], or nil. *)
Definition getNextToUpdate (env : Env) (fs : Filters) (w : World)
  : Filters * World * option nat :=
  let (now, w) := time_Now env w in
  match nextDue now (Proxylist (conf fs)) with
  | Some i =>
      let next := Go.Add now (Go.hours (UpdateIntervalHours (conf fs))) in
      (set_Proxylist (alter (set_nextUpdate next) i (Proxylist (conf fs))) fs,
       w, Some i)
  | None => (fs, w, None)
  end.

(** The loop of [modifyUpdated]: [None] when no record has the URL. *)
Fixpoint modifyUpdated_loop (uf : Filter) (l : list Filter)
  : option (list Filter) :=
  match l with
  | [] => None
  | f :: tl =>
      if String.eqb (URL f) (URL uf) then
        Some (set_LastUpdated (LastUpdated uf)
                (set_RuleCount (RuleCount uf)
                   (set_newID (ID uf) f)) :: tl)
      else (fun tl' => f :: tl') <$> modifyUpdated_loop uf tl
  end.

(** [fs.modifyUpdated(uf)]. *)
Definition modifyUpdated (uf : Filter) (fs : Filters) : Filters :=
  match modifyUpdated_loop uf (Proxylist (conf fs)) with
  | Some l => set_filtersUpdated true (set_Proxylist l fs)
  | None => fs
  end.

(** The loop of [applyUpdate], lines 391-404. *)
Fixpoint applyUpdate_loop (env : Env) (fs : Filters) (l : list Filter)
  (w : World) (nUpdated : Z) : list Filter * World * Z :=
  match l with
  | [] => ([], w, nUpdated)
  | f :: tl =>
      if negb (newID f =? 0)%N && negb (newID f =? ID f)%N then
        let name := filterPath fs f in
        let newName := filterPath fs (set_ID (newID f) zeroFilter) in
        let (w, _) := os_Rename env newName name w in
        let f := set_newID 0 f in
        let '(tl, w, n) := applyUpdate_loop env fs tl w (nUpdated + 1) in
        (f :: tl, w, n)
      else
        let '(tl, w, n) := applyUpdate_loop env fs tl w nUpdated in
        (f :: tl, w, n)
  end.

(** [fs.applyUpdate()]. *)
Definition applyUpdate (env : Env) (fs : Filters) (w : World)
  : Filters * World :=
  if negb (filtersUpdated fs) then (fs, w)
  else
    let fs := set_filtersUpdated false fs in
    let w := NotifyUsers fs EventBeforeUpdate w in
    let '(l, w, _) := applyUpdate_loop env fs (Proxylist (conf fs)) w 0 in
    let fs := set_Proxylist l fs in
    let w := NotifyUsers fs EventAfterUpdate w in
    (fs, w).

(** [*f] for the pointer that [getNextToUpdate] returned: there is
    nothing to load from nil. *)
Definition load (fs : Filters) (f : option nat) : option Filter :=
  match f with
  | Some i => Proxylist (conf fs) !! i
  | None => None
  end.

(** How one turn of the scheduler's loop ends. *)
Inductive Turn :=
| Panicked (w : World)                (* nil pointer dereference *)
| Continue (fs : Filters) (w : World).

(** The body of the loop of [updateFilters], lines 320-340. *)
Definition updateFilters_body (env : Env) (fs : Filters) (w : World) : Turn :=
  let period := Go.Hour in
  let '(fs, w, f) := getNextToUpdate env fs w in
  match load fs f with                       (* uf := *f *)
  | None => Panicked w
  | Some uf =>
      match f with
      | None =>                              (* if f == nil *)
          let (fs, w) := applyUpdate env fs w in
          Continue fs (time_Sleep period w)
      | Some _ =>
          let (id, w) := nextFilterID env w in
          let uf := set_ID id uf in
          match downloadFilter env fs uf w with
          | (_, w, Some _) => Continue fs w
          | (uf, w, None) => Continue (modifyUpdated uf fs) w
          end
      end
  end.

(** [updateFilters], cut after [n] turns of its loop. *)
Fixpoint updateFilters (n : nat) (env : Env) (fs : Filters) (w : World) : Turn :=
  match n with
  | O => Continue fs w
  | S k =>
      match updateFilters_body env fs w with
      | Panicked w => Panicked w
      | Continue fs w => updateFilters k env fs w
      end
  end.

(** ** The rest of the module (filters.go, lines 60-109) *)

Definition set_updateTaskRunning (b : bool) (fs : Filters) : Filters :=
  mkFilters (filtersUpdated fs) b (conf fs) (Users fs).

(** [fs.Init(conf)]. *)
Definition Init (c : Conf) (fs : Filters) : Filters :=
  mkFilters (filtersUpdated fs) (updateTaskRunning fs) c (Users fs).

(** What [Start] does to one record, lines 68-83.  [stat] is [os.Stat]:
    the modification time of the file, or nothing when it fails;
    [ioutil.ReadFile] gives the file of the world. *)
Definition Start_record (stat : string -> option Go.Time) (fs : Filters)
  (w : World) (f : Filter) : Filter :=
  let fname := filterPath fs f in
  match stat fname with
  | None => f                                              (* continue *)
  | Some mtime =>
      let f := set_LastUpdated mtime f in
      let f :=
        set_nextUpdate
          (Go.Add (LastUpdated f) (Go.hours (UpdateIntervalHours (conf fs))))
          f in
      match files w !! fname with
      | None => f                                          (* continue *)
      | Some body => parseFilter f body
      end
  end.

(** [fs.Start()]: the store, and whether the task [updateFilters] has
    been started by this call. *)
Definition Start (stat : string -> option Go.Time) (fs : Filters) (w : World)
  : Filters * bool :=
  let fs :=
    set_Proxylist (map (Start_record stat fs w) (Proxylist (conf fs))) fs in
  if negb (updateTaskRunning fs) then (set_updateTaskRunning true fs, true)
  else (fs, false).

(** The built-in [copy(dst, src)]: the first elements of [src] replace
    the first elements of [dst], as many as both have. *)
Definition copy {A : Type} (dst src : list A) : list A :=
  (take (length dst) src ++ drop (length src) dst)%list.

(** [arrayFilterDup(f)]. *)
Definition arrayFilterDup (f : list Filter) : list Filter :=
  let nf := replicate (length f) zeroFilter in
  copy nf f.

(** [fs.WriteDiskConfig(c)]: the store and the new [*c]. *)
Definition WriteDiskConfig (fs : Filters) : Filters * Conf :=
  let c := conf fs in
  let c :=
    mkConf (FilterDir c) (UpdateIntervalHours c)
      (arrayFilterDup (Proxylist (conf fs))) in
  (fs, c).

(** ** The specification's words *)

(** A line counts when it is non-empty and does not start with [#] or
    [!]. *)
Definition significant (line : string) : bool :=
  negb (String.eqb line "")
  && negb (String.prefix "#" line)
  && negb (String.prefix "!" line).

(** The rule count of a body: the number of its lines that count. *)
Definition ruleCount_spec (body : list Byte.byte) : nat :=
  length (List.filter significant
            (Go.split Go.newline (string_of_list_byte body))).

(** ** Notions used in the statements *)

(** A record has a pending revision: [newID] is set and is not the
    active id. *)
Definition pending (f : Filter) : Prop := newID f ≠ 0%N ∧ newID f ≠ ID f.

(** The file name of the revision [id]. *)
Definition revisionPath (fs : Filters) (id : N) : string :=
  filterPath fs (set_ID id zeroFilter).

(** A file name that [filepath.Clean] leaves alone at the end of a path:
    no separator in it, and not one of the special elements. *)
Definition plain_char (c : ascii) : bool :=
  negb (Ascii.eqb c Go.slash) && negb (Ascii.eqb c "."%char).

Fixpoint all_chars (P : ascii -> bool) (s : string) : bool :=
  match s with
  | EmptyString => true
  | String c s' => P c && all_chars P s'
  end.

(** What [filepath.Join] puts before a plain file name. *)
Fixpoint join_prefix (l : list string) : string :=
  match l with
  | [] => EmptyString
  | x :: tl => x ++ String Go.slash (join_prefix tl)
  end.

Definition dir_prefix (dir : string) : string :=
  if String.eqb dir "" then ""
  else
    let stk := fold_left (Go.clean_step (Go.rooted dir))
                 (Go.split Go.slash dir) [] in
    if Go.rooted dir then String Go.slash (join_prefix (rev stk))
    else join_prefix (rev stk).

(** The test of line 394. *)
Definition pendingb (f : Filter) : bool :=
  negb (newID f =? 0)%N && negb (newID f =? ID f)%N.

(** What the swap applier does to the record [f]. *)
Definition swapped (f : Filter) : Filter :=
  if pendingb f then set_newID 0 f else f.

(** [e] is the rename of the pending file of [f] onto its active file. *)
Definition is_rename_of (fs : Filters) (e : Event) (f : Filter) : Prop :=
  exists ok, e = EvRename (revisionPath fs (newID f)) (filterPath fs f) ok.

(** The calls of the handlers for one notification. *)
Definition notifications (fs : Filters) (flags : N) : list Event :=
  map (fun u => EvNotify u flags) (Users fs).

(** No enabled record is due at [now]. *)
Definition none_due (now : Go.Time) (fs : Filters) : Prop :=
  forall f, In f (Proxylist (conf fs)) -> Enabled f = true ->
            (Go.Unix now < Go.Unix (nextUpdate f))%Z.

(** A record of the collection has the name or the URL of [nf]. *)
Definition collides (nf : Filter) (fs : Filters) : Prop :=
  exists f, In f (Proxylist (conf fs)) /\
            (Name f = Name nf \/ URL f = URL nf).

(** The test of lines 351-352: the record is enabled and due at [now]. *)
Definition due (now : Go.Time) (f : Filter) : bool :=
  Enabled f && (Go.Unix (nextUpdate f) <=? Go.Unix now)%Z.

(** The number of records that are due at [now]. *)
Definition countDue (now : Go.Time) (l : list Filter) : nat :=
  length (List.filter (due now) l).

(** The largest interval, in hours, whose nanoseconds fit an [int64]. *)
Definition maxHours : N := 2562047.

(** No two records of the collection share a name, and no two a URL. *)
Definition unique (fs : Filters) : Prop :=
  NoDup (map Name (Proxylist (conf fs))) /\
  NoDup (map URL (Proxylist (conf fs))).

(** The fields of a record that identify it to the user. *)
Definition identity (f : Filter) : N * bool * string * string :=
  (ID f, Enabled f, Name f, URL f).

(** ** Concrete states *)

Definition filterA : Filter :=
  mkFilter 1 true "a" "http://a/list.txt" "" 0 0%Z 0 0%Z.
Definition filterB : Filter :=
  mkFilter 2 true "b" "http://b/list.txt" "" 0 0%Z 0 0%Z.
Definition filterC : Filter :=
  mkFilter 0 false "c" "http://c/list.txt" "" 0 0%Z 0 0%Z.

(** Two records, two observers. *)
Definition store_ab : Filters :=
  mkFilters false true (mkConf "/data" 1 [filterA; filterB]) [7; 8].

(** One record, the one of the example scenario. *)
Definition store_a : Filters :=
  mkFilters false true (mkConf "/data" 1 [filterA]) [7; 8].

(** No record at all. *)
Definition store_empty : Filters :=
  mkFilters false true (mkConf "/data" 1 []) [7; 8].

(** A world in which every download gives the example body and nothing
    fails; the clock shows second [5 + k] at its k-th reading. *)
Definition env_ok : Env :=
  mkEnv (fun k => ((Z.of_nat k + 5) * Go.Second)%Z)
        (fun _ => Resp 200 (Some body_ex))
        (fun _ => false) (fun _ _ => false).

(** The same world with a server that answers 404. *)
Definition env_404 : Env :=
  mkEnv (clock env_ok) (fun _ => Resp 404 None)
        (fun _ => false) (fun _ _ => false).

Definition world0 : World := mkWorld ∅ [] 0.

(** A record with the URL of [filterA] under another name, and a store
    that holds both. *)
Definition filterA' : Filter :=
  mkFilter 3 true "a again" "http://a/list.txt" "" 0 0%Z 0 0%Z.
Definition store_dup : Filters :=
  mkFilters false true (mkConf "/data" 1 [filterA; filterA'; filterB]) [].

(** An enabled record that is due at second 3600 and not before. *)
Definition filterIdle : Filter :=
  mkFilter 1 true "a" "http://a/list.txt" "" 0 0%Z 0 (3600 * Go.Second)%Z.
Definition store_idle : Filters :=
  mkFilters false true (mkConf "/data" 1 [filterIdle]) [7; 8].

(** The record [filterA] with the revision 6 pending, in a store that is
    marked as updated, and a world that holds both files. *)
Definition filterPending : Filter :=
  mkFilter 1 true "a" "http://a/list.txt" "" 2 (7 * Go.Second)%Z 6
    (3605 * Go.Second)%Z.
Definition store_pending : Filters :=
  mkFilters true true (mkConf "/data" 1 [filterPending]) [7; 8].
Definition world_pending : World :=
  mkWorld (<["/data/6.txt" := body_ex]> (<["/data/1.txt" := []]> ∅)) [] 3.

(** A store that is marked as updated and holds no record. *)
Definition store_flagged : Filters :=
  mkFilters true true (mkConf "/data" 1 []) [7; 8].

(** A world whose clock shows second 6 at every reading. *)
Definition env_second_6 : Env :=
  mkEnv (fun _ => (6 * Go.Second)%Z)
        (fun _ => Resp 200 (Some body_ex))
        (fun _ => false) (fun _ _ => false).

(** The store after [Add] of [filterC] at second 6, and the world with
    the file of that record; [body_old] is what the file holds, the
    answer of the server at the time of [Add]. *)
Definition body_old : list Byte.byte := list_byte_of_string "old".
Definition env_second_6_old : Env :=
  mkEnv (clock env_second_6) (fun _ => Resp 200 (Some body_old))
        (fun _ => false) (fun _ _ => false).
Definition filterSix : Filter :=
  mkFilter 6 true "c" "http://c/list.txt" "" 1 (6 * Go.Second)%Z 0 0%Z.
Definition store_six : Filters :=
  mkFilters false true (mkConf "/data" 1 [filterSix]) [7; 8].
Definition world_six : World :=
  mkWorld (<["/data/6.txt" := body_old]> ∅) [] 2.

(** The world of [store_a]: the file of [filterA] holds [body_old]. *)
Definition world_a : World :=
  mkWorld (<["/data/1.txt" := body_old]> ∅) [] 0.

(** What [getNextToUpdate] leaves when it claims [filterA] in
    [store_a]. *)
Definition store_a_claimed : Filters :=
  (getNextToUpdate env_ok store_a world_a).1.1.
Definition world_a_claimed : World :=
  (getNextToUpdate env_ok store_a world_a).1.2.
Definition filterA_claimed : Filter :=
  set_nextUpdate (3605 * Go.Second)%Z filterA.

(** What [getNextToUpdate] leaves when it claims [filterSix] in
    [store_six]. *)
Definition store_six_claimed : Filters :=
  (getNextToUpdate env_second_6 store_six world_six).1.1.
Definition world_six_claimed : World :=
  (getNextToUpdate env_second_6 store_six world_six).1.2.
Definition filterSix_claimed : Filter :=
  set_nextUpdate (3606 * Go.Second)%Z filterSix.

(** The ids of the record [g] do not meet the active id [a] and the new
    id [n] of another record, when [g] has a pending revision. *)
Definition apart (a n : N) (g : Filter) : Prop :=
  pending g -> ID g <> a /\ ID g <> n /\ newID g <> a /\ newID g <> n.

(** A world in second 6 whose server has one body for the list of
    [filterA] and another for every other URL, and the world of
    [store_ab], in which each record has its file. *)
Definition body_a : list Byte.byte := list_byte_of_string "rule-a".
Definition body_b : list Byte.byte := list_byte_of_string "rule-b".
Definition env_second_6_ab : Env :=
  mkEnv (fun _ => (6 * Go.Second)%Z)
        (fun url => if String.eqb url "http://a/list.txt"
                    then Resp 200 (Some body_a) else Resp 200 (Some body_b))
        (fun _ => false) (fun _ _ => false).
Definition world_ab : World :=
  mkWorld (<["/data/1.txt" := body_old]> (<["/data/2.txt" := body_old]> ∅))
    [] 0.

(** ** The claims in the specification's words, where the code differs *)

(** The swap applier makes the pending id the active id of every record
    that has a pending revision, and clears the pending id. *)
Definition swap_promotes_pending_id (env : Env) (fs : Filters) (w : World)
  : Prop :=
  forall i f,
    Proxylist (conf fs) !! i = Some f -> pending f ->
    exists f',
      Proxylist (conf (applyUpdate env fs w).1) !! i = Some f' /\
      ID f' = newID f /\ newID f' = 0%N.

(** The swap applier calls no handler and renames nothing when no record
    has a pending revision. *)
Definition applier_quiet_without_pending (env : Env) (fs : Filters)
  (w : World) : Prop :=
  (forall f, In f (Proxylist (conf fs)) -> ~ pending f) ->
  trace (applyUpdate env fs w).2 = trace w.

(** In a turn that claims a record, the id of the download is not the
    active id of the record. *)
Definition download_id_is_new (env : Env) (fs : Filters) (w : World) : Prop :=
  forall fs1 w1 i uf,
    getNextToUpdate env fs w = (fs1, w1, Some i) ->
    Proxylist (conf fs1) !! i = Some uf ->
    (nextFilterID env w1).1 <> ID uf.

(** In a turn that claims the record [F] and whose download succeeds,
    the file of [F] is as before when the turn ends, and holds the body
    after the swap applier. *)
Definition served_file_kept_until_swap (env : Env) (fs : Filters) (w : World)
  : Prop :=
  forall fs1 w1 i F body fs' w',
    getNextToUpdate env fs w = (fs1, w1, Some i) ->
    Proxylist (conf fs1) !! i = Some F ->
    download env (URL F) = inl body ->
    write_fails env (revisionPath fs (nextFilterID env w1).1) = false ->
    updateFilters_body env fs w = Continue fs' w' ->
    files w' !! filterPath fs F = files w !! filterPath fs F /\
    files (applyUpdate env fs' w').2 !! filterPath fs F = Some body.


(** * Properties *)

(** ** Strings and paths *)

Example itoa_ex : Go.itoa 1604188800%N = "1604188800".
Proof. reflexivity. Qed.

Example Join_ex1 :
  Go.Join "/var/lib/filters" "12.txt" = "/var/lib/filters/12.txt".
Proof. reflexivity. Qed.

Example Join_ex2 : Go.Join "" "12.txt" = "12.txt".
Proof. reflexivity. Qed.

Example Join_ex3 :
  Go.Join "data//./x/../filters/" "12.txt" = "data/filters/12.txt".
Proof. reflexivity. Qed.

Example Join_ex4 : Go.Join "../.." "12.txt" = "../../12.txt".
Proof. reflexivity. Qed.

Example Join_ex5 : Go.Join "/.." "0.txt" = "/0.txt".
Proof. reflexivity. Qed.

Example filterPath_ex : filterPath store_ab filterB = "/data/2.txt".
Proof. reflexivity. Qed.

(** [String.append] does not unfold under [simpl] here; its two equations
    are used as rewrite rules instead. *)
Lemma app_Empty (b : string) : ("" ++ b)%string = b.
Proof. reflexivity. Qed.

Lemma app_String (c : ascii) (a b : string) :
  (String c a ++ b)%string = String c (a ++ b).
Proof. reflexivity. Qed.

Ltac ssimpl := rewrite ?app_String, ?app_Empty; simpl.

Lemma append_nil_r (s : string) : (s ++ "")%string = s.
Proof. induction s as [|c s IH]; ssimpl; [reflexivity | now rewrite IH]. Qed.

Lemma append_assoc (a b c : string) :
  ((a ++ b) ++ c)%string = (a ++ (b ++ c))%string.
Proof. induction a as [|x a IH]; ssimpl; [reflexivity | now rewrite IH]. Qed.

Lemma list_ascii_of_append (a b : string) :
  list_ascii_of_string (a ++ b) =
  (list_ascii_of_string a ++ list_ascii_of_string b)%list.
Proof. induction a as [|x a IH]; ssimpl; [reflexivity | now rewrite IH]. Qed.

Lemma append_inv_tail (a b s : string) :
  (a ++ s)%string = (b ++ s)%string -> a = b.
Proof.
  intros H. apply (f_equal list_ascii_of_string) in H.
  rewrite !list_ascii_of_append in H. apply app_inv_tail in H.
  rewrite <- (string_of_list_ascii_of_string a),
          <- (string_of_list_ascii_of_string b).
  now rewrite H.
Qed.

Lemma append_inv_head (p a b : string) :
  (p ++ a)%string = (p ++ b)%string -> a = b.
Proof.
  induction p as [|c p IH]; rewrite ?app_String, ?app_Empty; intros H;
    [exact H | inversion H; auto].
Qed.

Lemma all_chars_append P (a b : string) :
  all_chars P (a ++ b) = all_chars P a && all_chars P b.
Proof.
  induction a as [|c a IH]; ssimpl; [reflexivity |].
  rewrite IH. now rewrite andb_assoc.
Qed.

Lemma itoa_plain (n : N) : all_chars plain_char (Go.itoa n) = true.
Proof.
  unfold Go.itoa. generalize (N.to_uint n). intros d.
  induction d; simpl; auto.
Qed.

Lemma itoa_inj (a b : N) : Go.itoa a = Go.itoa b -> a = b.
Proof.
  unfold Go.itoa. intros H.
  apply (f_equal NilEmpty.uint_of_string) in H.
  rewrite !NilEmpty.usu in H. inversion H as [H'].
  rewrite <- (DecimalN.Unsigned.of_to a), <- (DecimalN.Unsigned.of_to b).
  now rewrite H'.
Qed.

Lemma eqb_append_nonempty (a b : string) :
  String.eqb b "" = false -> String.eqb (a ++ b) "" = false.
Proof.
  intros H. destruct a as [|c a]; ssimpl; [exact H | reflexivity].
Qed.

Lemma split_nonempty (c : ascii) (s : string) : Go.split c s <> [].
Proof.
  destruct s as [|a s]; simpl; [discriminate |].
  destruct (Ascii.eqb a c); [discriminate |].
  destruct (Go.split c s); discriminate.
Qed.

Lemma split_app (c : ascii) (a b : string) :
  Go.split c (a ++ String c b) = (Go.split c a ++ Go.split c b)%list.
Proof.
  induction a as [|x a IH]; ssimpl.
  - now rewrite Ascii.eqb_refl.
  - destruct (Ascii.eqb x c); [now rewrite IH |].
    rewrite IH. pose proof (split_nonempty c a) as Hne.
    destruct (Go.split c a); [congruence | reflexivity].
Qed.

Lemma split_plain (s : string) :
  all_chars plain_char s = true -> Go.split Go.slash s = [s].
Proof.
  induction s as [|c s IH]; simpl; [reflexivity |].
  intros H. apply andb_prop in H as [Hc Hs].
  unfold plain_char in Hc. apply andb_prop in Hc as [Hc _].
  apply negb_true_iff in Hc. rewrite Hc, (IH Hs). reflexivity.
Qed.

Lemma join_slash_snoc (l : list string) (name : string) :
  Go.join_slash (l ++ [name]) = (join_prefix l ++ name)%string.
Proof.
  induction l as [|x tl IH]; [reflexivity |].
  change (Go.join_slash ((x :: tl) ++ [name]))
    with (Go.join_slash (x :: (tl ++ [name]))).
  simpl. rewrite IH, append_assoc, app_String.
  destruct (tl ++ [name])%list eqn:E; [destruct tl; discriminate | reflexivity].
Qed.

(** The name [<digits>.txt] of a filter file. *)
Lemma txt_name_facts (s : string) :
  all_chars plain_char s = true ->
  let name := (s ++ ".txt")%string in
  String.eqb name "" = false /\ String.eqb name "." = false /\
  String.eqb name ".." = false /\ Go.rooted name = false /\
  Go.split Go.slash name = [name].
Proof.
  intros H name. subst name.
  destruct s as [|c s]; [repeat split; reflexivity |].
  simpl in H. apply andb_prop in H as [Hc Hs].
  unfold plain_char in Hc. apply andb_prop in Hc as [Hsl Hdot].
  apply negb_true_iff in Hsl, Hdot.
  rewrite app_String.
  assert (Hs1 : Go.split Go.slash (s ++ ".txt") = [(s ++ ".txt")%string]).
  { induction s as [|d s IH]; [reflexivity |].
    simpl in Hs. apply andb_prop in Hs as [Hd Hs].
    unfold plain_char in Hd. apply andb_prop in Hd as [Hd _].
    apply negb_true_iff in Hd.
    rewrite app_String. simpl. rewrite Hd, (IH Hs). reflexivity. }
  repeat split; simpl.
  - now rewrite Hdot.
  - now rewrite Hdot.
  - exact Hsl.
  - now rewrite Hsl, Hs1.
Qed.

Lemma Join_plain (dir s : string) :
  all_chars plain_char s = true ->
  Go.Join dir (s ++ ".txt") = (dir_prefix dir ++ (s ++ ".txt"))%string.
Proof.
  intros H. destruct (txt_name_facts s H) as (Hn0 & Hn1 & Hn2 & Hroot & Hsplit).
  set (name := (s ++ ".txt")%string) in *.
  assert (Hstep : forall root stk, Go.clean_step root stk name = name :: stk).
  { intros root stk. unfold Go.clean_step. now rewrite Hn0, Hn1, Hn2. }
  unfold Go.Join, dir_prefix. destruct (String.eqb dir "") eqn:Hdir.
  - rewrite Hn0. unfold Go.Clean. rewrite Hn0, Hroot, Hsplit. simpl.
    rewrite Hstep. simpl. now rewrite Hn0.
  - destruct dir as [|c dir]; [discriminate |].
    unfold Go.Clean.
    assert (Hp : String.eqb (String c dir ++ String Go.slash name) "" = false)
      by (rewrite app_String; reflexivity).
    assert (Hr : Go.rooted (String c dir ++ String Go.slash name)
                 = Go.rooted (String c dir))
      by (rewrite app_String; reflexivity).
    remember (String c dir) as d eqn:Hd. clear Hd Hdir c dir.
    rewrite Hp, Hr, split_app, Hsplit, fold_left_app.
    remember (fold_left (Go.clean_step (Go.rooted d)) (Go.split Go.slash d) [])
      as stk eqn:Hstk. clear Hstk.
    cbn [fold_left]. rewrite Hstep. cbn [rev]. rewrite join_slash_snoc.
    destruct (Go.rooted d); [now rewrite app_String |].
    now rewrite (eqb_append_nonempty _ _ Hn0).
Qed.

(** Two filter files in one directory have the same name only when they
    have the same id. *)
Lemma filterPath_inj (fs : Filters) (f g : Filter) :
  filterPath fs f = filterPath fs g -> ID f = ID g.
Proof.
  unfold filterPath. rewrite !Join_plain by apply itoa_plain.
  intros H. apply append_inv_head, append_inv_tail in H.
  now apply itoa_inj.
Qed.

Lemma revisionPath_inj (fs : Filters) (a b : N) :
  revisionPath fs a = revisionPath fs b -> a = b.
Proof. unfold revisionPath. intros H. now apply filterPath_inj in H. Qed.

Lemma revisionPath_ID (fs : Filters) (f : Filter) :
  filterPath fs f = revisionPath fs (ID f).
Proof. reflexivity. Qed.

(** ** The classification step *)

Lemma prefix_char (a c : ascii) (r : string) :
  String.prefix (String a "") (String c r) = Ascii.eqb c a.
Proof.
  cbn [String.prefix]. destruct (ascii_dec a c) as [->|Hne].
  - rewrite Ascii.eqb_refl. now destruct r.
  - symmetry. apply Ascii.eqb_neq. congruence.
Qed.

Lemma significant_skipped (line : string) :
  significant line = negb (skipped line).
Proof.
  destruct line as [|c r]; [reflexivity |].
  unfold significant, skipped. rewrite !prefix_char.
  cbn [String.eqb negb andb]. now rewrite negb_orb.
Qed.

(** The first line that [SplitNext] returns is the first chunk of
    [strings.Split], and the lines that count in the rest are the same
    on both sides. *)
Lemma split_SplitNext (s : string) :
  exists t,
    Go.split Go.newline s = fst (SplitNext s Go.newline) :: t /\
    length (List.filter significant t) =
    length (List.filter significant
              (Go.split Go.newline (snd (SplitNext s Go.newline)))).
Proof.
  induction s as [|a s IH]; simpl.
  - exists []. split; reflexivity.
  - destruct (Ascii.eqb a Go.newline); simpl.
    + exists (Go.split Go.newline s). split; reflexivity.
    + destruct IH as (t & Ht & Hc). rewrite Ht. exists t. split; [reflexivity | exact Hc].
Qed.

Lemma parseLoop_count (data : string) (c : Z) :
  parseLoop data c =
  (c + Z.of_nat (length (List.filter significant (Go.split Go.newline data))))%Z.
Proof.
  funelim (parseLoop data c).
  - simpl. lia.
  - destruct (split_SplitNext (String a s)) as (t & Ht & Hc).
    rewrite Ht. cbn [List.filter]. rewrite significant_skipped.
    destruct (skipped (SplitNext (String a s) Go.newline).1) eqn:E.
    + rewrite H. cbn [negb length]. rewrite Hc. reflexivity.
    + rewrite H0. cbn [negb length]. rewrite Hc. lia.
Qed.

Lemma length_split (c : ascii) (s : string) :
  length (Go.split c s) <= S (String.length s).
Proof.
  induction s as [|a s IH]; simpl; [lia |].
  destruct (Ascii.eqb a c); simpl; [lia |].
  destruct (Go.split c s); simpl in *; lia.
Qed.

Lemma length_string_of_list_byte (l : list Byte.byte) :
  String.length (string_of_list_byte l) = length l.
Proof.
  unfold string_of_list_byte.
  induction l as [|b l IH]; simpl; [reflexivity | now rewrite IH].
Qed.

Lemma ruleCount_spec_le (body : list Byte.byte) :
  ruleCount_spec body <= S (length body).
Proof.
  unfold ruleCount_spec.
  etransitivity; [apply List.filter_length_le |].
  etransitivity; [apply length_split |].
  now rewrite length_string_of_list_byte.
Qed.

Lemma uint64_of_nat (n : nat) :
  (Z.of_nat n < 2 ^ 64)%Z -> Go.uint64 (Z.of_nat n) = N.of_nat n.
Proof.
  intros H. unfold Go.uint64. rewrite Z.mod_small by lia.
  apply N2Z.inj. rewrite Z2N.id by lia. now rewrite nat_N_Z.
Qed.

(** C10.  The classification step sets [RuleCount] to the number of lines
    of the body that are non-empty and do not start with '#' or '!', for
    every body that a Go slice can hold (its length is an [int]); the
    body ["# comment\nrule1\n\nrule2\n"] has rule count 2. *)
Theorem parseFilter_counts_rules (f : Filter) (body : list Byte.byte) :
  (Z.of_nat (length body) < 2 ^ 63)%Z ->
  RuleCount (parseFilter f body) = N.of_nat (ruleCount_spec body) /\
  RuleCount (parseFilter f body_ex) = 2%N.
Proof.
  intros Hlen. split; [| reflexivity].
  pose proof (ruleCount_spec_le body) as Hle.
  unfold parseFilter. cbn [RuleCount set_RuleCount].
  rewrite parseLoop_count, Z.add_0_l. fold (ruleCount_spec body).
  apply uint64_of_nat.
  change (2 ^ 63)%Z with 9223372036854775808%Z in Hlen.
  change (2 ^ 64)%Z with 18446744073709551616%Z. lia.
Qed.

Lemma parseFilter_counts_rules_witness :
  (Z.of_nat (length body_ex) < 2 ^ 63)%Z /\
  RuleCount (parseFilter zeroFilter body_ex) = N.of_nat (ruleCount_spec body_ex) /\
  RuleCount (parseFilter zeroFilter body_ex) = 2%N.
Proof.
  split; [vm_compute; reflexivity |].
  apply (parseFilter_counts_rules zeroFilter body_ex). vm_compute; reflexivity.
Defined.

(** ** The store *)

Lemma List_fold (g : Filter -> Filter) (l acc : list Filter) :
  fold_left (fun ff f => (ff ++ [g f])%list) l acc = (acc ++ map g l)%list.
Proof.
  revert acc. induction l as [|x l IH]; intros acc; simpl.
  - now rewrite app_nil_r.
  - rewrite IH, <- app_assoc. reflexivity.
Qed.

Lemma List_length (fs : Filters) (flags : N) :
  length (List fs flags).2 = 2 * length (Proxylist (conf fs)).
Proof.
  unfold List. cbn [snd].
  rewrite (List_fold (fun f => set_Path (filterPath fs f) f)).
  rewrite length_app, length_replicate, length_map. lia.
Qed.

(** C3.  [List] returns the store as it was, and a slice that holds one
    zero record per record of the collection, followed by the records of
    the collection with their paths resolved: twice as many entries as
    there are records. *)
Theorem List_prepends_zero_records (fs : Filters) (flags : N) :
  List fs flags =
  (fs, (replicate (length (Proxylist (conf fs))) zeroFilter ++
        map (fun f => set_Path (filterPath fs f) f) (Proxylist (conf fs)))%list).
Proof.
  unfold List. f_equal.
  apply (List_fold (fun f => set_Path (filterPath fs f) f)).
Qed.

Example List_store_a :
  (List store_a 0).2 = [zeroFilter; set_Path "/data/1.txt" filterA].
Proof. reflexivity. Qed.

Lemma Modify_store (url : string) (enabled : bool) (name newURL : string)
  (fs : Filters) :
  (Modify url enabled name newURL fs).1 = fs.
Proof. unfold Modify. now destruct (_ =? 0)%Z. Qed.

(** C2.  On the store with the records [filterA] and [filterB], a call of
    [Modify] that disables the first record, renames it and gives it
    another URL returns both change flags and leaves the stored record
    as it was; a call that asks for the values the record already has
    returns [StatusNotFound] although the record is there. *)
Theorem Modify_loses_the_update :
  Modify "http://a/list.txt" false "renamed" "http://c/list.txt" store_ab
    = (store_ab, Z.lor StatusChangedEnabled StatusChangedURL) /\
  Proxylist (conf store_ab) !! 0 = Some filterA /\
  URL filterA = "http://a/list.txt" /\
  Modify "http://a/list.txt" true "a" "http://a/list.txt" store_ab
    = (store_ab, StatusNotFound).
Proof. repeat split. Qed.

Lemma Delete_loop_nf (sem : LoopVar) (url : string) (l : list Filter) :
  forall i nf found mem,
    (Delete_loop sem url i l nf found mem).1.1 =
    (nf ++ List.filter (fun f => negb (String.eqb (URL f) url)) l)%list.
Proof.
  induction l as [|x l IH]; intros i nf found mem; simpl.
  - now rewrite app_nil_r.
  - destruct (String.eqb (URL x) url); simpl; rewrite IH; [reflexivity |].
    now rewrite <- app_assoc.
Qed.

Lemma Delete_loop_none (sem : LoopVar) (url : string) (l : list Filter) :
  (forall f, In f l -> URL f <> url) ->
  forall i nf found mem,
    (Delete_loop sem url i l nf found mem).1.2 = found.
Proof.
  induction l as [|x l IH]; intros Hno i nf found mem; simpl; [reflexivity |].
  destruct (String.eqb_spec (URL x) url) as [E|_].
  - exfalso. apply (Hno x); [now left | exact E].
  - apply IH. intros f Hf. apply Hno. now right.
Qed.

(** Deleting a URL that no record has: nil, and the store as it was. *)
Lemma Delete_not_found (sem : LoopVar) (url : string) (fs : Filters) :
  (forall f, In f (Proxylist (conf fs)) -> URL f <> url) ->
  Delete sem url fs = (fs, None).
Proof.
  intros Hno. unfold Delete.
  pose proof (Delete_loop_none sem url _ Hno 0 [] None ∅) as H.
  destruct (Delete_loop sem url 0 (Proxylist (conf fs)) [] None ∅)
    as [[nf found] mem].
  simpl in H. now subst found.
Qed.

(** With one variable for the whole loop, [found] points to the variable
    that holds the last record of the collection when the loop ends. *)
Lemma Delete_loop_PerLoop (url : string) (l : list Filter) (x : Filter) :
  forall i nf found mem,
    let r := Delete_loop PerLoop url i (l ++ [x]) nf found mem in
    r.2 !! 0 = Some x /\
    (r.1.2 = found \/ r.1.2 = Some 0).
Proof.
  induction l as [|y l IH]; intros i nf found mem; simpl.
  - destruct (String.eqb (URL x) url); simpl;
      (split; [apply lookup_insert_eq | auto]).
  - destruct (String.eqb (URL y) url).
    + destruct (IH (S i) nf (Some 0) (<[0:=y]> mem)) as [H1 H2].
      split; [exact H1 | destruct H2; auto].
    + apply IH.
Qed.

Lemma url_match_dec (l : list Filter) (url : string) :
  (exists f, In f l /\ URL f = url) \/ (forall f, In f l -> URL f <> url).
Proof.
  induction l as [|y l [(f & Hin & Hf)|Hno]].
  - right. intros f [].
  - left. exists f. split; [now right | exact Hf].
  - destruct (String.eqb_spec (URL y) url) as [E|NE].
    + left. exists y. split; [now left | exact E].
    + right. intros f [<-|Hin]; [exact NE | now apply Hno].
Qed.

Lemma Delete_loop_found (sem : LoopVar) (url : string) (l : list Filter) :
  (exists f, In f l /\ URL f = url) ->
  forall i nf found mem,
    (Delete_loop sem url i l nf found mem).1.2 <> None.
Proof.
  induction l as [|y l IH]; intros (f & Hin & Hf) i nf found mem; simpl.
  - destruct Hin.
  - destruct (String.eqb_spec (URL y) url) as [E|NE].
    + destruct (url_match_dec l url) as [Hex|Hno].
      * apply IH. exact Hex.
      * rewrite (Delete_loop_none sem url l Hno). discriminate.
    + apply IH. destruct Hin as [->|Hin]; [congruence |]. eauto.
Qed.

(** With one variable for the whole loop, deleting a URL that some
    record has removes the records with that URL and returns the last
    record of the collection, whichever record had the URL. *)
Lemma Delete_PerLoop_returns_last (url : string) (fs : Filters)
  (l : list Filter) (x : Filter) :
  Proxylist (conf fs) = (l ++ [x])%list ->
  (exists f, In f (l ++ [x]) /\ URL f = url) ->
  Delete PerLoop url fs =
  (set_Proxylist
     (List.filter (fun f => negb (String.eqb (URL f) url)) (l ++ [x])) fs,
   Some (set_Path (filterPath fs x) x)).
Proof.
  intros Hl Hex. unfold Delete. rewrite Hl.
  pose proof (Delete_loop_nf PerLoop url (l ++ [x]) 0 [] None ∅) as Hnf.
  pose proof (Delete_loop_PerLoop url l x 0 [] None ∅) as [Hmem Hfound].
  pose proof (Delete_loop_found PerLoop url (l ++ [x]) Hex 0 [] None ∅) as Hsome.
  destruct (Delete_loop PerLoop url 0 (l ++ [x]) [] None ∅) as [[nf found] mem].
  simpl in *. destruct Hfound as [->| ->]; [congruence |].
  rewrite Hmem. now subst nf.
Qed.

(** C4.  On the store with the records [filterA] and [filterB], in this
    order, [Delete] of the URL of [filterA] removes [filterA] from the
    collection and returns [filterB] with the path of the file of
    [filterB], when the loop has one variable [f] (Go before 1.22). *)
Theorem Delete_returns_another_record :
  URL filterA = "http://a/list.txt" /\
  Delete PerLoop "http://a/list.txt" store_ab =
  (set_Proxylist [filterB] store_ab, Some (set_Path "/data/2.txt" filterB)).
Proof. split; reflexivity. Qed.

(** With a variable per iteration the record that is returned has the
    URL; where two records have it, both are removed and the second is
    returned. *)
Example Delete_PerIteration_store_ab :
  Delete PerIteration "http://a/list.txt" store_ab =
  (set_Proxylist [filterB] store_ab, Some (set_Path "/data/1.txt" filterA)).
Proof. reflexivity. Qed.

Example Delete_store_dup (sem : LoopVar) :
  (Delete sem "http://a/list.txt" store_dup).1 =
  set_Proxylist [filterB] store_dup.
Proof. destruct sem; reflexivity. Qed.

Example Delete_PerIteration_store_dup :
  (Delete PerIteration "http://a/list.txt" store_dup).2 =
  Some (set_Path "/data/3.txt" filterA').
Proof. reflexivity. Qed.

(** *** Add *)

Lemma collides_existsb (nf : Filter) (fs : Filters) :
  existsb (fun f => String.eqb (Name f) (Name nf)
                    || String.eqb (URL f) (URL nf))
    (Proxylist (conf fs)) = true <-> collides nf fs.
Proof.
  rewrite existsb_exists. unfold collides.
  split; intros (f & Hin & H); exists f; (split; [exact Hin |]).
  - apply orb_prop in H as [H|H]; apply String.eqb_eq in H; auto.
  - apply orb_true_intro.
    destruct H as [H|H]; [left | right]; now apply String.eqb_eq.
Qed.

Lemma Add_duplicate (env : Env) (nf : Filter) (fs : Filters) (w : World) :
  collides nf fs -> Add env nf fs w = (fs, w, Some ErrExists).
Proof.
  intros H. apply collides_existsb in H. unfold Add. now rewrite H.
Qed.

Lemma Add_error_keeps_store (env : Env) (nf : Filter) (fs : Filters) (w : World) :
  forall fs' w' e, Add env nf fs w = (fs', w', Some e) -> fs' = fs.
Proof.
  intros fs' w' e. unfold Add.
  destruct (existsb _ _); [congruence |].
  destruct (nextFilterID env w) as [id w1].
  destruct (downloadFilter env fs _ w1) as [[nf1 w2] [err|]]; congruence.
Qed.

Lemma downloadFilter_download_error (env : Env) (fs : Filters) (f : Filter)
  (w : World) (e : error) :
  download env (URL f) = inr e ->
  downloadFilter env fs f w = (f, w, Some (ErrDownload (URL f) e)).
Proof. intros H. unfold downloadFilter. now rewrite H. Qed.

Lemma downloadFilter_success (env : Env) (fs : Filters) (f : Filter)
  (w : World) (body : list Byte.byte) :
  download env (URL f) = inl body ->
  write_fails env (filterPath fs f) = false ->
  downloadFilter env fs f w =
  (set_LastUpdated (clock env (ticks w)) (parseFilter f body),
   mkWorld (<[filterPath fs f := body]> (files w)) (trace w) (S (ticks w)),
   None).
Proof.
  intros Hd Hw. unfold downloadFilter, SafeWrite. rewrite Hd.
  change (filterPath fs (parseFilter f body)) with (filterPath fs f).
  now rewrite Hw.
Qed.

Lemma downloadFilter_keeps (env : Env) (fs : Filters) (f : Filter) (w : World) :
  forall f' w' r, downloadFilter env fs f w = (f', w', r) ->
    ID f' = ID f /\ Enabled f' = Enabled f /\ Name f' = Name f /\
    URL f' = URL f /\ newID f' = newID f /\ nextUpdate f' = nextUpdate f /\
    trace w' = trace w.
Proof.
  intros f' w' r. unfold downloadFilter, SafeWrite.
  destruct (download env (URL f)) as [body|e].
  - destruct (write_fails env _); intros H; inversion H; subst;
      repeat split; reflexivity.
  - intros H; inversion H; subst; repeat split; reflexivity.
Qed.



(** ** The scheduler's loop *)

Lemma nextDue_none (now : Go.Time) (l : list Filter) :
  (forall f, In f l -> Enabled f = true ->
             (Go.Unix now < Go.Unix (nextUpdate f))%Z) ->
  nextDue now l = None.
Proof.
  induction l as [|f l IH]; intros H; simpl; [reflexivity |].
  destruct (Enabled f) eqn:En; simpl.
  - assert (Hf : (Go.Unix now < Go.Unix (nextUpdate f))%Z)
      by (apply H; [now left | exact En]).
    apply Z.leb_gt in Hf. rewrite Hf.
    rewrite IH; [reflexivity |]. intros g Hg. apply H. now right.
  - rewrite IH; [reflexivity |]. intros g Hg. apply H. now right.
Qed.

Lemma getNextToUpdate_frame (env : Env) (fs : Filters) (w : World) :
  forall fs1 w1 r,
    getNextToUpdate env fs w = (fs1, w1, r) ->
    FilterDir (conf fs1) = FilterDir (conf fs) /\
    filtersUpdated fs1 = filtersUpdated fs /\
    Users fs1 = Users fs /\
    w1 = mkWorld (files w) (trace w) (S (ticks w)).
Proof.
  intros fs1 w1 r. unfold getNextToUpdate. cbn [time_Now].
  destruct (nextDue _ _); intros H; inversion H; subst; repeat split.
Qed.

Lemma getNextToUpdate_none (env : Env) (fs : Filters) (w : World) :
  none_due (clock env (ticks w)) fs ->
  getNextToUpdate env fs w = (fs, (time_Now env w).2, None).
Proof.
  intros H. unfold getNextToUpdate. cbn [time_Now snd].
  now rewrite nextDue_none.
Qed.

(** C1.  In a turn of the scheduler's loop in which no enabled record is
    due, the copy [uf := *f] of line 322 dereferences the nil pointer
    that [getNextToUpdate] returned: the turn ends in a panic after the
    one reading of the clock, before the swap applier is called and
    before any sleep. *)
Theorem updateFilters_body_panics_when_none_due
  (env : Env) (fs : Filters) (w : World) :
  none_due (clock env (ticks w)) fs ->
  updateFilters_body env fs w =
  Panicked (mkWorld (files w) (trace w) (S (ticks w))).
Proof.
  intros H. unfold updateFilters_body.
  rewrite (getNextToUpdate_none env fs w H). reflexivity.
Qed.

Lemma updateFilters_body_panics_when_none_due_witness :
  none_due (clock env_ok (ticks world0)) store_idle /\
  updateFilters_body env_ok store_idle world0 = Panicked (mkWorld ∅ [] 1).
Proof.
  assert (H : none_due (clock env_ok (ticks world0)) store_idle).
  { intros f [<-|[]] _. vm_compute. reflexivity. }
  split; [exact H |].
  exact (updateFilters_body_panics_when_none_due env_ok store_idle world0 H).
Defined.

(** No turn of the loop calls a handler, renames a file or sleeps: the
    branch of line 325 that would do so is behind the dereference. *)
Lemma updateFilters_body_trace (env : Env) (fs : Filters) (w : World) :
  match updateFilters_body env fs w with
  | Panicked w' => trace w' = trace w
  | Continue _ w' => trace w' = trace w
  end.
Proof.
  unfold updateFilters_body.
  destruct (getNextToUpdate env fs w) as [[fs1 w1] f] eqn:Hg.
  destruct (getNextToUpdate_frame env fs w fs1 w1 f Hg) as (_ & _ & _ & ->).
  destruct f as [i|]; cbn [load]; [| reflexivity].
  destruct (Proxylist (conf fs1) !! i) as [uf|]; [| reflexivity].
  cbn [nextFilterID time_Now].
  destruct (downloadFilter env fs1 _ _) as [[uf' w'] r] eqn:Hd.
  apply downloadFilter_keeps in Hd.
  destruct Hd as (_ & _ & _ & _ & _ & _ & Ht).
  destruct r; exact Ht.
Qed.

(** Once a turn has panicked the loop is over, whatever number of turns
    was allowed. *)
Lemma updateFilters_panics (n : nat) (env : Env) (fs : Filters) (w : World) :
  none_due (clock env (ticks w)) fs ->
  updateFilters (S n) env fs w =
  Panicked (mkWorld (files w) (trace w) (S (ticks w))).
Proof.
  intros H. simpl. unfold updateFilters_body.
  rewrite (getNextToUpdate_none env fs w H). reflexivity.
Qed.

(** ** The swap applier *)

Lemma emit_nil (w : World) : emit [] w = w.
Proof. destruct w. unfold emit. simpl. now rewrite app_nil_r. Qed.

Lemma emit_emit (a b : list Event) (w : World) :
  emit b (emit a w) = emit (a ++ b) w.
Proof. unfold emit. simpl. now rewrite app_assoc. Qed.

Lemma NotifyUsers_emit (fs : Filters) (flags : N) (w : World) :
  NotifyUsers fs flags w = emit (notifications fs flags) w.
Proof.
  unfold NotifyUsers, notifications. revert w.
  induction (Users fs) as [|u us IH]; intros w; simpl.
  - now rewrite emit_nil.
  - rewrite IH, emit_emit. reflexivity.
Qed.

Lemma pendingb_pending (f : Filter) : pendingb f = true <-> pending f.
Proof.
  unfold pendingb, pending. rewrite andb_true_iff, !negb_true_iff.
  rewrite !N.eqb_neq. reflexivity.
Qed.

Lemma os_Rename_trace (env : Env) (src dst : string) (w : World) :
  exists ok,
    trace (os_Rename env src dst w).1 = (trace w ++ [EvRename src dst ok])%list.
Proof.
  unfold os_Rename. destruct (rename_fails env src dst).
  - exists false. reflexivity.
  - destruct (files w !! src); [exists true | exists false]; reflexivity.
Qed.

(** The loop of the applier clears the pending id of the records that
    have a pending revision, changes nothing else in the collection, and
    attempts the renames of these records in their order, nothing
    else. *)
Lemma applyUpdate_loop_spec (env : Env) (fs : Filters) (l : list Filter) :
  forall w n,
    (applyUpdate_loop env fs l w n).1.1 = map swapped l /\
    exists evs,
      trace (applyUpdate_loop env fs l w n).1.2 = (trace w ++ evs)%list /\
      Forall2 (is_rename_of fs) evs (List.filter pendingb l).
Proof.
  induction l as [|f l IH]; intros w n.
  - split; [reflexivity |]. exists []. split; [| constructor].
    simpl. now rewrite app_nil_r.
  - cbn [applyUpdate_loop List.filter map]. unfold swapped at 1.
    fold (pendingb f). destruct (pendingb f) eqn:Hp.
    + destruct (os_Rename_trace env
                  (filterPath fs (set_ID (newID f) zeroFilter))
                  (filterPath fs f) w) as [ok Hok].
      destruct (os_Rename env _ (filterPath fs f) w) as [w1 e1].
      cbn [fst] in Hok.
      destruct (IH w1 (n + 1)%Z) as [Hl (evs & Ht & Hall)].
      destruct (applyUpdate_loop env fs l w1 (n + 1)) as [[tl w2] n2].
      cbn [fst snd] in *. split; [now rewrite Hl |].
      exists (EvRename (revisionPath fs (newID f)) (filterPath fs f) ok :: evs).
      split.
      * rewrite Ht, Hok, <- app_assoc. reflexivity.
      * constructor; [now exists ok | exact Hall].
    + destruct (IH w n) as [Hl (evs & Ht & Hall)].
      destruct (applyUpdate_loop env fs l w n) as [[tl w2] n2].
      cbn [fst snd] in *. split; [now rewrite Hl |].
      exists evs. split; assumption.
Qed.

(** The applier on a store that is marked as updated. *)
Lemma applyUpdate_updated (env : Env) (fs : Filters) (w : World) :
  filtersUpdated fs = true ->
  (applyUpdate env fs w).1 =
    set_Proxylist (map swapped (Proxylist (conf fs)))
      (set_filtersUpdated false fs) /\
  exists renames,
    trace (applyUpdate env fs w).2 =
      (trace w ++ notifications fs EventBeforeUpdate ++ renames ++
       notifications fs EventAfterUpdate)%list /\
    Forall2 (is_rename_of fs) renames
      (List.filter pendingb (Proxylist (conf fs))).
Proof.
  intros Hflag. unfold applyUpdate. rewrite Hflag.
  cbn [negb]. rewrite !NotifyUsers_emit.
  destruct (applyUpdate_loop_spec env (set_filtersUpdated false fs)
              (Proxylist (conf (set_filtersUpdated false fs)))
              (emit (notifications (set_filtersUpdated false fs)
                       EventBeforeUpdate) w) 0%Z)
    as [Hl (evs & Ht & Hall)].
  destruct (applyUpdate_loop env _ _ _ 0) as [[l w1] n1].
  cbn [fst snd] in *. split; [now rewrite Hl |].
  exists evs. split; [| exact Hall].
  rewrite NotifyUsers_emit. cbn [emit trace]. rewrite Ht. cbn [emit trace].
  rewrite <- !app_assoc. reflexivity.
Qed.

(** C8.  A run of the swap applier on a store that is marked as updated
    calls every handler with [EventBeforeUpdate], in the order of
    registration, then attempts the renames of the records that have a
    pending revision, in their order and whether or not they succeed,
    then calls every handler with [EventAfterUpdate]; nothing else
    happens.  On a store that is not marked as updated it changes
    neither the store nor the world. *)
Theorem applyUpdate_trace (env : Env) (fs : Filters) (w : World) :
  (filtersUpdated fs = true ->
   exists renames,
     trace (applyUpdate env fs w).2 =
       (trace w ++ notifications fs EventBeforeUpdate ++ renames ++
        notifications fs EventAfterUpdate)%list /\
     Forall2 (is_rename_of fs) renames
       (List.filter pendingb (Proxylist (conf fs)))) /\
  (filtersUpdated fs = false -> applyUpdate env fs w = (fs, w)).
Proof.
  split; intros Hflag.
  - exact (proj2 (applyUpdate_updated env fs w Hflag)).
  - unfold applyUpdate. now rewrite Hflag.
Qed.

Lemma applyUpdate_trace_witness :
  filtersUpdated store_pending = true /\
  (exists renames,
     trace (applyUpdate env_ok store_pending world_pending).2 =
       (trace world_pending ++
        notifications store_pending EventBeforeUpdate ++ renames ++
        notifications store_pending EventAfterUpdate)%list /\
     Forall2 (is_rename_of store_pending) renames
       (List.filter pendingb (Proxylist (conf store_pending)))) /\
  filtersUpdated store_idle = false /\
  applyUpdate env_ok store_idle world0 = (store_idle, world0).
Proof.
  split; [reflexivity |].
  split; [exact (proj1 (applyUpdate_trace env_ok store_pending world_pending)
                   eq_refl) |].
  split; [reflexivity |].
  exact (proj2 (applyUpdate_trace env_ok store_idle world0) eq_refl).
Defined.

(** The run of the applier on [store_pending], with its two observers
    and its one pending revision. *)
Example applyUpdate_store_pending :
  trace (applyUpdate env_ok store_pending world_pending).2 =
    [EvNotify 7 EventBeforeUpdate; EvNotify 8 EventBeforeUpdate;
     EvRename "/data/6.txt" "/data/1.txt" true;
     EvNotify 7 EventAfterUpdate; EvNotify 8 EventAfterUpdate] /\
  files (applyUpdate env_ok store_pending world_pending).2 !! "/data/1.txt"
    = Some body_ex /\
  files (applyUpdate env_ok store_pending world_pending).2 !! "/data/6.txt"
    = None.
Proof. repeat split; vm_compute; reflexivity. Qed.

(** A rename that fails is one event of the batch like the others: here
    the pending file is missing. *)
Example applyUpdate_rename_fails :
  trace (applyUpdate env_ok store_pending world0).2 =
    [EvNotify 7 EventBeforeUpdate; EvNotify 8 EventBeforeUpdate;
     EvRename "/data/6.txt" "/data/1.txt" false;
     EvNotify 7 EventAfterUpdate; EvNotify 8 EventAfterUpdate].
Proof. vm_compute. reflexivity. Qed.

(** The observers are called in the order in which [AddUser] registered
    them. *)
Lemma notifications_AddUser (h : EventHandler) (fs : Filters) (flags : N) :
  notifications (AddUser h fs) flags =
  (notifications fs flags ++ [EvNotify h flags])%list.
Proof. unfold notifications, AddUser. cbn [Users]. now rewrite map_app. Qed.

(** The store that is marked as updated without a record is what a
    download followed by the deletion of the record leaves. *)
Example store_flagged_reached :
  exists fs1 w1 f,
    updateFilters_body env_ok store_a world0 = Continue fs1 w1 /\
    Delete PerLoop "http://a/list.txt" fs1 = (store_flagged, Some f).
Proof. do 3 eexists. split; vm_compute; reflexivity. Qed.

(** On that store no record has a pending revision, and the applier
    calls the handlers all the same. *)
Lemma applier_notifies_without_pending :
  ~ applier_quiet_without_pending env_ok store_flagged world0.
Proof.
  unfold applier_quiet_without_pending. intros H.
  assert (Hq : forall f, In f (Proxylist (conf store_flagged)) -> ~ pending f)
    by (intros f []).
  specialize (H Hq). vm_compute in H. discriminate H.
Qed.

Lemma map_lookup_Some {A B : Type} (g : A -> B) (l : list A) (i : nat) (x : A) :
  l !! i = Some x -> map g l !! i = Some (g x).
Proof.
  revert i. induction l as [|y l IH]; intros [|i] H; simpl in *;
    try discriminate.
  - now inversion H.
  - now apply IH.
Qed.

Lemma lookup_In {A : Type} (l : list A) (i : nat) (x : A) :
  l !! i = Some x -> In x l.
Proof.
  revert i. induction l as [|y l IH]; intros [|i] H; simpl in *;
    try discriminate.
  - inversion H. now left.
  - right. now apply (IH i).
Qed.

Lemma Forall2_In_r {A B : Type} (R : A -> B -> Prop) (xs : list A)
  (ys : list B) (y : B) :
  Forall2 R xs ys -> In y ys -> exists x, In x xs /\ R x y.
Proof.
  induction 1 as [|x y' xs ys HR _ IH]; intros Hin; [destruct Hin |].
  destruct Hin as [->|Hin].
  - exists x. split; [now left | exact HR].
  - destruct (IH Hin) as (x' & Hx & Hr). exists x'. split; [now right | exact Hr].
Qed.

(** C5.  After a run of the swap applier on a store that is marked as
    updated, every record that entered it with a pending revision has
    had the rename of the pending file onto the file of its active id
    attempted, has its pending id cleared, and is otherwise as before:
    its active id is the one it had. *)
Theorem applyUpdate_clears_pending (env : Env) (fs : Filters) (w : World)
  (i : nat) (f : Filter) :
  filtersUpdated fs = true ->
  Proxylist (conf fs) !! i = Some f ->
  pending f ->
  Proxylist (conf (applyUpdate env fs w).1) !! i = Some (set_newID 0 f) /\
  ID (set_newID 0 f) = ID f /\
  newID (set_newID 0 f) = 0%N /\
  exists ok,
    In (EvRename (revisionPath fs (newID f)) (filterPath fs f) ok)
       (trace (applyUpdate env fs w).2).
Proof.
  intros Hflag Hi Hp.
  destruct (applyUpdate_updated env fs w Hflag) as [Hfs (evs & Ht & Hall)].
  assert (Hpb : pendingb f = true) by now apply pendingb_pending.
  split; [| split; [reflexivity | split; [reflexivity |]]].
  - rewrite Hfs. cbn [set_Proxylist set_filtersUpdated conf Proxylist].
    rewrite (map_lookup_Some swapped _ _ _ Hi). unfold swapped. now rewrite Hpb.
  - assert (Hin : In f (List.filter pendingb (Proxylist (conf fs)))).
    { apply filter_In. split; [exact (lookup_In _ _ _ Hi) | exact Hpb]. }
    destruct (Forall2_In_r _ _ _ _ Hall Hin) as (e & He & [ok ->]).
    exists ok. rewrite Ht. apply in_or_app. right.
    apply in_or_app. right. apply in_or_app. now left.
Qed.

Lemma applyUpdate_clears_pending_witness :
  filtersUpdated store_pending = true /\
  Proxylist (conf store_pending) !! 0 = Some filterPending /\
  pending filterPending /\
  Proxylist (conf (applyUpdate env_ok store_pending world_pending).1) !! 0
    = Some (set_newID 0 filterPending) /\
  ID (set_newID 0 filterPending) = 1%N.
Proof.
  assert (Hp : pending filterPending) by (split; discriminate).
  split; [reflexivity | split; [reflexivity | split; [exact Hp |]]].
  destruct (applyUpdate_clears_pending env_ok store_pending world_pending
              0 filterPending eq_refl eq_refl Hp) as (H1 & H2 & _).
  split; [exact H1 | exact H2].
Defined.

(** The record of [store_pending] enters the applier with the active id
    1 and the pending id 6 and leaves it with the active id 1. *)
Lemma applyUpdate_keeps_active_id :
  ~ swap_promotes_pending_id env_ok store_pending world_pending.
Proof.
  intros H.
  destruct (H 0 filterPending eq_refl) as (f' & Hl & Hid & _);
    [split; discriminate |].
  vm_compute in Hl. inversion Hl; subst f'. discriminate Hid.
Qed.

(** ** A turn that claims a record *)

Lemma filterPath_dir (fs fs1 : Filters) (f : Filter) :
  FilterDir (conf fs1) = FilterDir (conf fs) ->
  filterPath fs1 f = filterPath fs f.
Proof. intros H. unfold filterPath. now rewrite H. Qed.

Lemma downloadFilter_files (env : Env) (fs : Filters) (f : Filter) (w : World) :
  forall f' w' r,
    downloadFilter env fs f w = (f', w', r) ->
    forall p, p <> filterPath fs f -> files w' !! p = files w !! p.
Proof.
  intros f' w' r. unfold downloadFilter, SafeWrite.
  destruct (download env (URL f)) as [body|e].
  - change (filterPath fs (parseFilter f body)) with (filterPath fs f).
    destruct (write_fails env _); intros H p Hp; inversion H; subst;
      [reflexivity |].
    cbn [files set_files]. now apply lookup_insert_ne.
  - intros H p _; inversion H; subst; reflexivity.
Qed.

(** What a turn does once [getNextToUpdate] has claimed the record at
    the index [i]. *)
Lemma updateFilters_body_claimed (env : Env) (fs : Filters) (w : World)
  (fs1 : Filters) (w1 : World) (i : nat) (uf : Filter) :
  getNextToUpdate env fs w = (fs1, w1, Some i) ->
  Proxylist (conf fs1) !! i = Some uf ->
  updateFilters_body env fs w =
  match downloadFilter env fs1 (set_ID (nextFilterID env w1).1 uf)
          (nextFilterID env w1).2 with
  | (_, w', Some _) => Continue fs1 w'
  | (uf', w', None) => Continue (modifyUpdated uf' fs1) w'
  end.
Proof.
  intros Hg Hi. unfold updateFilters_body. rewrite Hg.
  cbn [load]. rewrite Hi. reflexivity.
Qed.

(** In a turn that claims a record, the id of the download is the
    reading of the clock in seconds; the turn ends normally and changes
    no file but the one this id names; whenever the id is not the active
    id of the record, the file of the record is therefore as before. *)
Theorem scheduled_download_file (env : Env) (fs : Filters) (w : World)
  (fs1 : Filters) (w1 : World) (i : nat) (uf : Filter) :
  getNextToUpdate env fs w = (fs1, w1, Some i) ->
  Proxylist (conf fs1) !! i = Some uf ->
  (nextFilterID env w1).1 = Go.uint64 (Go.Unix (clock env (ticks w1))) /\
  exists fs' w',
    updateFilters_body env fs w = Continue fs' w' /\
    (forall p, p <> revisionPath fs (nextFilterID env w1).1 ->
               files w' !! p = files w !! p) /\
    ((nextFilterID env w1).1 <> ID uf ->
     files w' !! filterPath fs uf = files w !! filterPath fs uf).
Proof.
  intros Hg Hi. split; [reflexivity |].
  rewrite (updateFilters_body_claimed env fs w fs1 w1 i uf Hg Hi).
  destruct (getNextToUpdate_frame env fs w fs1 w1 _ Hg) as (Hdir & _ & _ & Hw1).
  set (n := (nextFilterID env w1).1).
  destruct (downloadFilter env fs1 (set_ID n uf) (nextFilterID env w1).2)
    as [[uf' w'] r] eqn:Hd.
  assert (Hfiles : forall p, p <> revisionPath fs n ->
                             files w' !! p = files w !! p).
  { intros p Hp.
    rewrite (downloadFilter_files env fs1 _ _ _ _ _ Hd p).
    - subst w1. reflexivity.
    - rewrite (filterPath_dir fs fs1 _ Hdir). exact Hp. }
  assert (Hact : n <> ID uf ->
                 files w' !! filterPath fs uf = files w !! filterPath fs uf).
  { intros Hn. apply Hfiles. rewrite revisionPath_ID.
    intros E. apply revisionPath_inj in E. congruence. }
  destruct r as [e|]; do 2 eexists; (split; [reflexivity | split; assumption]).
Qed.

Lemma scheduled_download_file_witness :
  getNextToUpdate env_ok store_a world_a
    = (store_a_claimed, world_a_claimed, Some 0) /\
  Proxylist (conf store_a_claimed) !! 0 = Some filterA_claimed /\
  (nextFilterID env_ok world_a_claimed).1 = 6%N /\
  exists fs' w',
    updateFilters_body env_ok store_a world_a = Continue fs' w' /\
    files w' !! filterPath store_a filterA_claimed
      = files world_a !! filterPath store_a filterA_claimed.
Proof.
  assert (Hg : getNextToUpdate env_ok store_a world_a
               = (store_a_claimed, world_a_claimed, Some 0))
    by (vm_compute; reflexivity).
  assert (Hi : Proxylist (conf store_a_claimed) !! 0 = Some filterA_claimed)
    by (vm_compute; reflexivity).
  split; [exact Hg | split; [exact Hi | split; [vm_compute; reflexivity |]]].
  destruct (scheduled_download_file env_ok store_a world_a
              store_a_claimed world_a_claimed 0 filterA_claimed Hg Hi)
    as (_ & fs' & w' & Hb & _ & Hact).
  exists fs', w'. split; [exact Hb |].
  apply Hact. vm_compute. discriminate.
Defined.

(** [store_six] is what [Add] leaves at second 6. *)
Example Add_reaches_store_six :
  Add env_second_6_old filterC store_empty world0
  = (store_six, world_six, None).
Proof. vm_compute. reflexivity. Qed.

(** A turn in the second in which the record got its id: the id of the
    download is the active id. *)
Lemma download_id_can_be_active_id :
  ~ download_id_is_new env_second_6 store_six world_six.
Proof.
  intros H.
  apply (H store_six_claimed world_six_claimed 0 filterSix_claimed);
    vm_compute; reflexivity.
Qed.

(** In that turn the download replaces the file that is served. *)
Example turn_overwrites_served_file :
  exists fs' w',
    updateFilters_body env_second_6 store_six world_six = Continue fs' w' /\
    files world_six !! filterPath store_six filterSix = Some body_old /\
    files w' !! filterPath store_six filterSix = Some body_ex.
Proof. do 2 eexists. repeat split; vm_compute; reflexivity. Qed.

(** ** From the download to the swap *)

Lemma modifyUpdated_loop_first (uf : Filter) (l1 : list Filter) (F : Filter)
  (l2 : list Filter) :
  Forall (fun g => URL g <> URL uf) l1 ->
  URL F = URL uf ->
  modifyUpdated_loop uf (l1 ++ F :: l2) =
  Some (l1 ++
        set_LastUpdated (LastUpdated uf)
          (set_RuleCount (RuleCount uf) (set_newID (ID uf) F)) :: l2)%list.
Proof.
  intros Hl1 HF. induction Hl1 as [|g l1 Hg _ IH]; simpl.
  - apply String.eqb_eq in HF. now rewrite HF.
  - apply String.eqb_neq in Hg. rewrite Hg, IH. reflexivity.
Qed.

Lemma os_Rename_files_frame (env : Env) (src dst : string) (w : World)
  (p : string) :
  p <> src -> p <> dst ->
  files (os_Rename env src dst w).1 !! p = files w !! p.
Proof.
  intros Hs Hd. unfold os_Rename.
  destruct (rename_fails env src dst); [reflexivity |].
  destruct (files w !! src); [| reflexivity].
  cbn [fst emit set_files files].
  rewrite lookup_insert_ne by congruence.
  now rewrite lookup_delete_ne by congruence.
Qed.

Lemma os_Rename_files_dst (env : Env) (src dst : string) (w : World)
  (c : list Byte.byte) :
  rename_fails env src dst = false ->
  files w !! src = Some c ->
  files (os_Rename env src dst w).1 !! dst = Some c.
Proof.
  intros Hr Hs. unfold os_Rename. rewrite Hr, Hs.
  cbn [fst emit set_files files]. apply lookup_insert_eq.
Qed.

Lemma NotifyUsers_files (fs : Filters) (flags : N) (w : World) :
  files (NotifyUsers fs flags w) = files w.
Proof. now rewrite NotifyUsers_emit. Qed.

(** The loop of the applier leaves the file [p] alone when [p] is neither
    the pending file nor the active file of a record that has a pending
    revision. *)
Lemma applyUpdate_loop_frame (env : Env) (fs : Filters) (l : list Filter)
  (p : string) :
  Forall (fun g => pending g ->
            p <> revisionPath fs (newID g) /\ p <> filterPath fs g) l ->
  forall w n, files (applyUpdate_loop env fs l w n).1.2 !! p = files w !! p.
Proof.
  induction 1 as [|g l Hg _ IH]; intros w n; [reflexivity |].
  cbn [applyUpdate_loop]. fold (pendingb g).
  destruct (pendingb g) eqn:Hp.
  - apply pendingb_pending in Hp. destruct (Hg Hp) as [Hsrc Hdst].
    pose proof (os_Rename_files_frame env _ _ w p Hsrc Hdst) as Hf.
    unfold revisionPath in Hf.
    destruct (os_Rename env _ (filterPath fs g) w) as [w1 e1].
    cbn [fst] in Hf. specialize (IH w1 (n + 1)%Z).
    destruct (applyUpdate_loop env fs l w1 (n + 1)) as [[tl w2] n2].
    cbn [fst snd] in *. now rewrite IH.
  - specialize (IH w n).
    destruct (applyUpdate_loop env fs l w n) as [[tl w2] n2].
    exact IH.
Qed.

Lemma apart_frame_pending (fs : Filters) (a n : N) (l : list Filter) :
  Forall (apart a n) l ->
  Forall (fun g => pending g ->
            revisionPath fs n <> revisionPath fs (newID g) /\
            revisionPath fs n <> filterPath fs g) l.
Proof.
  intros H. eapply Forall_impl; [exact H |]. clear H.
  intros g Hg Hp. destruct (Hg Hp) as (H1 & H2 & H3 & H4).
  split; intros E; apply revisionPath_inj in E; congruence.
Qed.

Lemma apart_frame_active (fs : Filters) (a n : N) (l : list Filter) :
  Forall (apart a n) l ->
  Forall (fun g => pending g ->
            revisionPath fs a <> revisionPath fs (newID g) /\
            revisionPath fs a <> filterPath fs g) l.
Proof.
  intros H. eapply Forall_impl; [exact H |]. clear H.
  intros g Hg Hp. destruct (Hg Hp) as (H1 & H2 & H3 & H4).
  split; intros E; apply revisionPath_inj in E; congruence.
Qed.

(** The loop of the applier puts the pending file of the record [F] in
    the place of its active file, when the rename is not refused and the
    other records with a pending revision use other ids. *)
Lemma applyUpdate_loop_swaps (env : Env) (fs : Filters) (l1 : list Filter)
  (F : Filter) (l2 : list Filter) (c : list Byte.byte) :
  Forall (apart (ID F) (newID F)) l1 ->
  Forall (apart (ID F) (newID F)) l2 ->
  pending F ->
  rename_fails env (revisionPath fs (newID F)) (filterPath fs F) = false ->
  forall w n,
    files w !! revisionPath fs (newID F) = Some c ->
    files (applyUpdate_loop env fs (l1 ++ F :: l2) w n).1.2
      !! filterPath fs F = Some c.
Proof.
  intros H1 H2 Hp Hr. induction H1 as [|g l1 Hg Hl1 IH]; intros w n Hc.
  - cbn [app applyUpdate_loop]. fold (pendingb F).
    apply pendingb_pending in Hp. rewrite Hp.
    pose proof (os_Rename_files_dst env _ _ w c Hr Hc) as Hdst.
    unfold revisionPath in Hdst.
    destruct (os_Rename env _ (filterPath fs F) w) as [w1 e1].
    cbn [fst] in Hdst.
    pose proof (applyUpdate_loop_frame env fs l2 (filterPath fs F)
                  (apart_frame_active fs _ _ l2 H2) w1 (n + 1)%Z) as Hfr.
    destruct (applyUpdate_loop env fs l2 w1 (n + 1)) as [[tl w2] n2].
    cbn [fst snd] in *. now rewrite Hfr.
  - cbn [app applyUpdate_loop]. fold (pendingb g).
    destruct (pendingb g) eqn:Hpg.
    + apply pendingb_pending in Hpg. destruct (Hg Hpg) as (G1 & G2 & G3 & G4).
      assert (Hc1 : files (os_Rename env (revisionPath fs (newID g))
                             (filterPath fs g) w).1
                    !! revisionPath fs (newID F) = Some c).
      { rewrite os_Rename_files_frame; [exact Hc | |];
          intros E; apply revisionPath_inj in E; congruence. }
      unfold revisionPath at 1 in Hc1.
      destruct (os_Rename env _ (filterPath fs g) w) as [w1 e1].
      cbn [fst] in Hc1. specialize (IH w1 (n + 1)%Z Hc1).
      destruct (applyUpdate_loop env fs (l1 ++ F :: l2) w1 (n + 1))
        as [[tl w2] n2].
      exact IH.
    + specialize (IH w n Hc).
      destruct (applyUpdate_loop env fs (l1 ++ F :: l2) w n) as [[tl w2] n2].
      exact IH.
Qed.

(** The same for the applier as a whole. *)
Lemma applyUpdate_swaps (env : Env) (fs : Filters) (w : World)
  (l1 : list Filter) (F : Filter) (l2 : list Filter) (c : list Byte.byte) :
  filtersUpdated fs = true ->
  Proxylist (conf fs) = (l1 ++ F :: l2)%list ->
  Forall (apart (ID F) (newID F)) (l1 ++ l2) ->
  pending F ->
  rename_fails env (revisionPath fs (newID F)) (filterPath fs F) = false ->
  files w !! revisionPath fs (newID F) = Some c ->
  files (applyUpdate env fs w).2 !! filterPath fs F = Some c.
Proof.
  intros Hflag Hl Hap Hp Hr Hc.
  apply Forall_app in Hap as [H1 H2].
  unfold applyUpdate. rewrite Hflag. cbn [negb].
  pose proof (applyUpdate_loop_swaps env (set_filtersUpdated false fs)
                l1 F l2 c H1 H2 Hp Hr
                (NotifyUsers (set_filtersUpdated false fs) EventBeforeUpdate w)
                0%Z) as Hloop.
  rewrite NotifyUsers_files in Hloop. specialize (Hloop Hc).
  change (Proxylist (conf (set_filtersUpdated false fs)))
    with (Proxylist (conf fs)).
  rewrite Hl.
  destruct (applyUpdate_loop env _ (l1 ++ F :: l2) _ 0) as [[l w1] n1].
  cbn [fst snd] in *. rewrite NotifyUsers_files. exact Hloop.
Qed.

(** A turn followed at once by the swap applier.  In a turn that claims
    the record [F] and downloads its body
    under an id that is neither zero nor the active id of [F], the file
    of [F] is as before when the turn ends and the body is in the file
    that the new id names.  After the swap applier the file of [F]
    holds the body, byte for byte, provided that [F] is the first record
    with its URL, that the records with a pending revision use other ids
    than the two ids of [F], and that the rename is not refused. *)
Theorem refresh_round_trip (env env2 : Env) (fs : Filters) (w : World)
  (fs1 : Filters) (w1 : World) (l1 l2 : list Filter) (F : Filter)
  (body : list Byte.byte) :
  getNextToUpdate env fs w = (fs1, w1, Some (length l1)) ->
  Proxylist (conf fs1) = (l1 ++ F :: l2)%list ->
  download env (URL F) = inl body ->
  write_fails env (revisionPath fs (nextFilterID env w1).1) = false ->
  (nextFilterID env w1).1 <> ID F ->
  (nextFilterID env w1).1 <> 0%N ->
  Forall (fun g => URL g <> URL F) l1 ->
  Forall (apart (ID F) (nextFilterID env w1).1) (l1 ++ l2) ->
  rename_fails env2 (revisionPath fs (nextFilterID env w1).1)
    (filterPath fs F) = false ->
  exists fs' w',
    updateFilters_body env fs w = Continue fs' w' /\
    files w' !! filterPath fs F = files w !! filterPath fs F /\
    files w' !! revisionPath fs (nextFilterID env w1).1 = Some body /\
    files (applyUpdate env2 fs' w').2 !! filterPath fs F = Some body.
Proof.
  intros Hg Hl Hd Hw Hn Hn0 Hurl Hap Hr.
  destruct (getNextToUpdate_frame env fs w fs1 w1 _ Hg) as (Hdir & _ & _ & Hw1).
  set (n := (nextFilterID env w1).1) in *.
  assert (Hi : Proxylist (conf fs1) !! length l1 = Some F)
    by (rewrite Hl; now apply list_lookup_middle).
  assert (Hnew : filterPath fs1 (set_ID n F) = revisionPath fs n)
    by (unfold revisionPath, filterPath; now rewrite Hdir).
  assert (Hw' : write_fails env (filterPath fs1 (set_ID n F)) = false)
    by now rewrite Hnew.
  rewrite (updateFilters_body_claimed env fs w fs1 w1 _ F Hg Hi).
  fold n.
  rewrite (downloadFilter_success env fs1 (set_ID n F) _ body Hd Hw').
  set (uf := set_LastUpdated _ (parseFilter (set_ID n F) body)).
  set (F' := set_LastUpdated (LastUpdated uf)
               (set_RuleCount (RuleCount uf) (set_newID (ID uf) F))).
  assert (Hfs' : modifyUpdated uf fs1 =
                 set_filtersUpdated true
                   (set_Proxylist (l1 ++ F' :: l2) fs1)).
  { unfold modifyUpdated. rewrite Hl.
    now rewrite (modifyUpdated_loop_first uf l1 F l2 Hurl eq_refl). }
  do 2 eexists. split; [reflexivity |].
  assert (Hfiles1 : files (nextFilterID env w1).2 = files w)
    by (subst w1; reflexivity).
  cbn [files]. rewrite Hnew, Hfiles1.
  split; [| split].
  - apply lookup_insert_ne. rewrite revisionPath_ID.
    intros E. apply revisionPath_inj in E. congruence.
  - apply lookup_insert_eq.
  - rewrite Hfs'.
    set (fs' := set_filtersUpdated true (set_Proxylist (l1 ++ F' :: l2) fs1)).
    assert (Hdir' : FilterDir (conf fs') = FilterDir (conf fs)) by exact Hdir.
    change (filterPath fs F) with (filterPath fs F').
    rewrite <- (filterPath_dir fs fs' F' Hdir').
    apply (applyUpdate_swaps env2 fs' _ l1 F' l2 body).
    + reflexivity.
    + reflexivity.
    + exact Hap.
    + split; [exact Hn0 | exact Hn].
    + unfold revisionPath. rewrite !(filterPath_dir fs fs' _ Hdir'). exact Hr.
    + cbn [files]. unfold revisionPath.
      rewrite (filterPath_dir fs fs' _ Hdir'). apply lookup_insert_eq.
Qed.

Lemma refresh_round_trip_witness :
  getNextToUpdate env_ok store_a world_a
    = (store_a_claimed, world_a_claimed, Some 0) /\
  download env_ok (URL filterA_claimed) = inl body_ex /\
  (nextFilterID env_ok world_a_claimed).1 = 6%N /\
  ID filterA_claimed = 1%N /\
  exists fs' w',
    updateFilters_body env_ok store_a world_a = Continue fs' w' /\
    files w' !! filterPath store_a filterA_claimed
      = files world_a !! filterPath store_a filterA_claimed /\
    files w' !! revisionPath store_a 6 = Some body_ex /\
    files (applyUpdate env_ok fs' w').2 !! filterPath store_a filterA_claimed
      = Some body_ex.
Proof.
  assert (Hg : getNextToUpdate env_ok store_a world_a
               = (store_a_claimed, world_a_claimed, Some (length (@nil Filter))))
    by (vm_compute; reflexivity).
  assert (Hl : Proxylist (conf store_a_claimed) = ([] ++ filterA_claimed :: [])%list)
    by (vm_compute; reflexivity).
  split; [exact Hg |].
  split; [reflexivity |].
  split; [vm_compute; reflexivity |].
  split; [reflexivity |].
  apply (refresh_round_trip env_ok env_ok store_a world_a
           store_a_claimed world_a_claimed [] [] filterA_claimed body_ex Hg Hl).
  - reflexivity.
  - reflexivity.
  - vm_compute. discriminate.
  - vm_compute. discriminate.
  - constructor.
  - constructor.
  - reflexivity.
Defined.

(** In the turn at second 6 on [store_six] the download succeeds and the
    file of the record has changed when the turn ends, before any run of
    the swap applier. *)
Lemma served_file_can_change_before_swap :
  ~ served_file_kept_until_swap env_second_6 store_six world_six.
Proof.
  intros H.
  assert (Hg : getNextToUpdate env_second_6 store_six world_six
               = (store_six_claimed, world_six_claimed, Some 0))
    by (vm_compute; reflexivity).
  assert (Hi : Proxylist (conf store_six_claimed) !! 0 = Some filterSix_claimed)
    by (vm_compute; reflexivity).
  destruct (updateFilters_body env_second_6 store_six world_six)
    as [w'|fs' w'] eqn:Hb; [vm_compute in Hb; discriminate Hb |].
  destruct (H _ _ _ _ body_ex fs' w' Hg Hi eq_refl eq_refl Hb) as [Hkept _].
  vm_compute in Hb. injection Hb as <- <-.
  vm_compute in Hkept. discriminate Hkept.
Qed.

(** * Further properties of the module *)

(** ** File names and the downloader *)

(** X1.  The file of a record is named by the cleaned directory, the
    decimal id and [.txt]; two records of one store have the same file
    exactly when they have the same id. *)
Theorem filterPath_same_file_iff (fs : Filters) (f g : Filter) :
  filterPath fs f =
    (dir_prefix (FilterDir (conf fs)) ++ (Go.itoa (ID f) ++ ".txt"))%string /\
  (filterPath fs f = filterPath fs g <-> ID f = ID g).
Proof.
  split.
  - unfold filterPath. apply Join_plain, itoa_plain.
  - split; [apply filterPath_inj |].
    intros H. unfold filterPath. now rewrite H.
Qed.

(** X2.  [downloadFilter] records no event and keeps the id, the enabled
    flag, the name and the URL of the record.  When it returns an error
    no file has changed and the clock has not been read again; when it
    succeeds the one file it has written is the file of the record,
    which holds the body that [download] gave, and [LastUpdated] is the
    reading of the clock. *)
Theorem downloadFilter_outcome (env : Env) (fs : Filters) (f : Filter)
  (w : World) :
  let r := downloadFilter env fs f w in
  trace r.1.2 = trace w /\
  identity r.1.1 = identity f /\
  match r.2 with
  | Some _ => files r.1.2 = files w /\ ticks r.1.2 = ticks w
  | None =>
      exists body,
        download env (URL f) = inl body /\
        files r.1.2 = <[filterPath fs f := body]> (files w) /\
        LastUpdated r.1.1 = clock env (ticks w)
  end.
Proof.
  unfold downloadFilter, SafeWrite.
  destruct (download env (URL f)) as [body|e]; cbn zeta.
  - change (filterPath fs (parseFilter f body)) with (filterPath fs f).
    destruct (write_fails env (filterPath fs f)); cbn.
    + repeat split.
    + repeat split. exists body. repeat split.
  - cbn. repeat split.
Qed.

(** ** The scan for the next record *)

Lemma nextDue_Some (now : Go.Time) (l : list Filter) (i : nat) :
  nextDue now l = Some i ->
  exists f,
    l !! i = Some f /\ due now f = true /\
    forall j g, j < i -> l !! j = Some g -> due now g = false.
Proof.
  revert i. induction l as [|x l IH]; intros i; simpl; [discriminate |].
  fold (due now x). destruct (due now x) eqn:Hx.
  - intros H. inversion H; subst. exists x.
    split; [reflexivity | split; [exact Hx |]]. intros j g Hj. lia.
  - destruct (nextDue now l) as [k|]; [| discriminate].
    intros H. inversion H; subst.
    destruct (IH k eq_refl) as (f & Hf & Hd & Hbefore).
    exists f. split; [exact Hf | split; [exact Hd |]].
    intros [|j] g Hj Hg; simpl in Hg.
    + now inversion Hg; subst.
    + apply (Hbefore j g); [lia | exact Hg].
Qed.

Lemma getNextToUpdate_Some (env : Env) (fs : Filters) (w : World)
  (fs1 : Filters) (w1 : World) (i : nat) :
  getNextToUpdate env fs w = (fs1, w1, Some i) ->
  nextDue (clock env (ticks w)) (Proxylist (conf fs)) = Some i /\
  fs1 = set_Proxylist
          (alter (set_nextUpdate
                    (Go.Add (clock env (ticks w))
                       (Go.hours (UpdateIntervalHours (conf fs)))))
             i (Proxylist (conf fs))) fs.
Proof.
  unfold getNextToUpdate. cbn [time_Now].
  destruct (nextDue _ _) as [k|]; intros H; inversion H; subst.
  split; reflexivity.
Qed.

(** X3.  When [getNextToUpdate] returns a record, it is the first record
    of the collection that is enabled and due at the reading of the
    clock; in the store it leaves, that record has the next update at
    the reading plus the interval and is otherwise as it was, and every
    other record is as it was. *)
Theorem getNextToUpdate_claims_first_due (env : Env) (fs : Filters)
  (w : World) (fs1 : Filters) (w1 : World) (i : nat) :
  getNextToUpdate env fs w = (fs1, w1, Some i) ->
  let now := clock env (ticks w) in
  exists f,
    Proxylist (conf fs) !! i = Some f /\
    Enabled f = true /\
    (Go.Unix (nextUpdate f) <= Go.Unix now)%Z /\
    (forall j g, j < i -> Proxylist (conf fs) !! j = Some g ->
                 due now g = false) /\
    Proxylist (conf fs1) !! i =
      Some (set_nextUpdate
              (Go.Add now (Go.hours (UpdateIntervalHours (conf fs)))) f) /\
    (forall j, j <> i ->
               Proxylist (conf fs1) !! j = Proxylist (conf fs) !! j) /\
    length (Proxylist (conf fs1)) = length (Proxylist (conf fs)).
Proof.
  intros Hg now. apply getNextToUpdate_Some in Hg as [Hn ->].
  destruct (nextDue_Some _ _ _ Hn) as (f & Hf & Hd & Hbefore).
  exists f. unfold due in Hd. apply andb_prop in Hd as [He Ht].
  apply Z.leb_le in Ht.
  split; [exact Hf | split; [exact He | split; [exact Ht |]]].
  split; [exact Hbefore |].
  cbn [set_Proxylist conf Proxylist].
  split; [| split].
  - rewrite list_lookup_alter_eq, Hf. reflexivity.
  - intros j Hj. apply list_lookup_alter_ne. congruence.
  - apply length_alter.
Qed.

Lemma getNextToUpdate_claims_first_due_witness :
  getNextToUpdate env_ok store_ab world0
    = ((getNextToUpdate env_ok store_ab world0).1.1,
       (getNextToUpdate env_ok store_ab world0).1.2, Some 0) /\
  Proxylist (conf (getNextToUpdate env_ok store_ab world0).1.1) !! 1
    = Some filterB.
Proof.
  assert (Hg : getNextToUpdate env_ok store_ab world0
               = ((getNextToUpdate env_ok store_ab world0).1.1,
                  (getNextToUpdate env_ok store_ab world0).1.2, Some 0))
    by (vm_compute; reflexivity).
  split; [exact Hg |].
  destruct (getNextToUpdate_claims_first_due env_ok store_ab world0 _ _ 0 Hg)
    as (f & _ & _ & _ & _ & _ & Hother & _).
  rewrite (Hother 1) by discriminate. reflexivity.
Defined.

Lemma hours_no_wrap (h : N) :
  (h <= maxHours)%N -> Go.hours h = (Z.of_N h * 3600 * Go.Second)%Z.
Proof.
  intros Hh. unfold Go.hours, Go.int64, Go.Hour, Go.Second, maxHours in *.
  change (2 ^ 63)%Z with 9223372036854775808%Z.
  change (2 ^ 64)%Z with 18446744073709551616%Z.
  rewrite Z.mod_small by lia. lia.
Qed.

Lemma Unix_Add_hours (now : Go.Time) (h : N) :
  (h <= maxHours)%N ->
  Go.Unix (Go.Add now (Go.hours h)) = (Go.Unix now + 3600 * Z.of_N h)%Z.
Proof.
  intros Hh. rewrite (hours_no_wrap h Hh). unfold Go.Unix, Go.Add.
  replace (now + Z.of_N h * 3600 * Go.Second)%Z
    with (now + (3600 * Z.of_N h) * Go.Second)%Z by lia.
  apply Z.div_add. unfold Go.Second. lia.
Qed.

(** X4.  When the interval is between 1 and 2562047 hours (the range in
    which its nanoseconds fit an [int64]), the record that
    [getNextToUpdate] has claimed is next due 3600 seconds per hour of
    the interval after the reading of the clock, and is not due at that
    reading any more. *)
Theorem claimed_record_not_due_again (env : Env) (fs : Filters) (w : World)
  (fs1 : Filters) (w1 : World) (i : nat) :
  getNextToUpdate env fs w = (fs1, w1, Some i) ->
  (1 <= UpdateIntervalHours (conf fs) <= maxHours)%N ->
  let now := clock env (ticks w) in
  exists f',
    Proxylist (conf fs1) !! i = Some f' /\
    Go.Unix (nextUpdate f') =
      (Go.Unix now + 3600 * Z.of_N (UpdateIntervalHours (conf fs)))%Z /\
    due now f' = false.
Proof.
  intros Hg [Hlo Hhi] now. apply getNextToUpdate_Some in Hg as [Hn ->].
  destruct (nextDue_Some _ _ _ Hn) as (f & Hf & _ & _).
  eexists. cbn [set_Proxylist conf Proxylist].
  rewrite list_lookup_alter_eq, Hf. split; [reflexivity |].
  cbn [nextUpdate set_nextUpdate]. fold now.
  pose proof (Unix_Add_hours now _ Hhi) as Hu.
  split; [exact Hu |].
  unfold due. cbn [nextUpdate set_nextUpdate Enabled]. rewrite Hu.
  apply andb_false_intro2. apply Z.leb_gt. lia.
Qed.

Lemma claimed_record_not_due_again_witness :
  (1 <= UpdateIntervalHours (conf store_ab) <= maxHours)%N /\
  exists f',
    Proxylist (conf (getNextToUpdate env_ok store_ab world0).1.1) !! 0
      = Some f' /\
    Go.Unix (nextUpdate f') = 3605%Z.
Proof.
  assert (Hh : (1 <= UpdateIntervalHours (conf store_ab) <= maxHours)%N)
    by (split; discriminate).
  split; [exact Hh |].
  destruct (claimed_record_not_due_again env_ok store_ab world0
              (getNextToUpdate env_ok store_ab world0).1.1
              (getNextToUpdate env_ok store_ab world0).1.2 0
              ltac:(vm_compute; reflexivity) Hh) as (f' & Hf & Hu & _).
  exists f'. split; [exact Hf | exact Hu].
Defined.

(** Beyond that range the product wraps: with 2562048 hours the next
    update is before the reading of the clock. *)
Example hours_wrap : (Go.hours 2562048 < 0)%Z.
Proof. reflexivity. Qed.

(** With an interval of zero hours the claimed record is due again at
    once. *)
Example interval_zero_still_due (now : Go.Time) (f : Filter) :
  due now f = true ->
  due now (set_nextUpdate (Go.Add now (Go.hours 0)) f) = true.
Proof.
  unfold due. cbn [Enabled nextUpdate set_nextUpdate]. intros H.
  apply andb_prop in H as [-> _]. cbn [andb].
  apply Z.leb_le. unfold Go.Add. change (Go.hours 0) with 0%Z.
  rewrite Z.add_0_r. lia.
Qed.

(** ** Recording a download *)

Lemma modifyUpdated_loop_None (uf : Filter) (l : list Filter) :
  (forall f, In f l -> URL f <> URL uf) -> modifyUpdated_loop uf l = None.
Proof.
  induction l as [|f l IH]; intros H; simpl; [reflexivity |].
  destruct (String.eqb_spec (URL f) (URL uf)) as [E|_].
  - exfalso. apply (H f); [now left | exact E].
  - rewrite IH; [reflexivity |]. intros g Hg. apply H. now right.
Qed.

(** X5.  When no record of the collection has the URL of the downloaded
    copy (the record was deleted during the download), [modifyUpdated]
    leaves the store as it is: nothing is attached and the store is not
    marked as updated. *)
Theorem modifyUpdated_absent (uf : Filter) (fs : Filters) :
  (forall f, In f (Proxylist (conf fs)) -> URL f <> URL uf) ->
  modifyUpdated uf fs = fs.
Proof.
  intros H. unfold modifyUpdated. now rewrite modifyUpdated_loop_None.
Qed.

Lemma modifyUpdated_absent_witness :
  (forall f, In f (Proxylist (conf store_ab)) -> URL f <> URL filterC) /\
  modifyUpdated filterC store_ab = store_ab.
Proof.
  assert (H : forall f, In f (Proxylist (conf store_ab)) -> URL f <> URL filterC)
    by (intros f [<-|[<-|[]]]; discriminate).
  split; [exact H | exact (modifyUpdated_absent filterC store_ab H)].
Defined.

(** X6.  Otherwise [modifyUpdated] changes the first record that has the
    URL and no other: it gets the id of the copy as its pending id, and
    the rule count and the update time of the copy; its own id, flag,
    name, URL and next update stay, and the store is marked as
    updated. *)
Theorem modifyUpdated_first_match (uf : Filter) (fs : Filters)
  (l1 : list Filter) (F : Filter) (l2 : list Filter) :
  Proxylist (conf fs) = (l1 ++ F :: l2)%list ->
  Forall (fun g => URL g <> URL uf) l1 ->
  URL F = URL uf ->
  modifyUpdated uf fs =
  set_filtersUpdated true
    (set_Proxylist
       (l1 ++ mkFilter (ID F) (Enabled F) (Name F) (URL F) (Path F)
                (RuleCount uf) (LastUpdated uf) (ID uf) (nextUpdate F)
           :: l2) fs).
Proof.
  intros Hl H1 HF. unfold modifyUpdated.
  rewrite Hl, (modifyUpdated_loop_first uf l1 F l2 H1 HF). reflexivity.
Qed.

Lemma modifyUpdated_first_match_witness :
  modifyUpdated (set_ID 9 filterB) store_ab =
  set_filtersUpdated true
    (set_Proxylist [filterA; set_newID 9 filterB] store_ab).
Proof.
  apply (modifyUpdated_first_match (set_ID 9 filterB) store_ab
           [filterA] filterB []).
  - reflexivity.
  - constructor; [discriminate | constructor].
  - reflexivity.
Defined.

(** ** The swap applier, again *)

Lemma applyUpdate_store (env : Env) (fs : Filters) (w : World) :
  (applyUpdate env fs w).1 =
  if filtersUpdated fs
  then set_Proxylist (map swapped (Proxylist (conf fs)))
         (set_filtersUpdated false fs)
  else fs.
Proof.
  destruct (filtersUpdated fs) eqn:Hflag.
  - exact (proj1 (applyUpdate_updated env fs w Hflag)).
  - unfold applyUpdate. now rewrite Hflag.
Qed.

Lemma swapped_not_pending (f : Filter) : pendingb (swapped f) = false.
Proof.
  unfold swapped. destruct (pendingb f) eqn:Hp; [reflexivity | exact Hp].
Qed.

(** X7.  A second run of the swap applier on the store that a first run
    has left changes nothing and records no event, whatever the world
    is then. *)
Theorem applyUpdate_twice (env env2 : Env) (fs : Filters) (w w2 : World) :
  applyUpdate env2 (applyUpdate env fs w).1 w2 = ((applyUpdate env fs w).1, w2).
Proof.
  assert (Hflag : filtersUpdated (applyUpdate env fs w).1 = false).
  { rewrite applyUpdate_store. destruct (filtersUpdated fs) eqn:E;
      [reflexivity | exact E]. }
  unfold applyUpdate at 1. now rewrite Hflag.
Qed.

(** X8.  The store that the swap applier leaves does not depend on the
    world: on a store that is marked as updated the mark is cleared and
    the pending id of every record that had a pending revision is
    cleared, whether its rename succeeded or failed, so that no record
    has a pending revision afterwards; the ids, flags, names and URLs of
    the records are as before. *)
Theorem applyUpdate_result_store (env : Env) (fs : Filters) (w : World) :
  filtersUpdated fs = true ->
  (applyUpdate env fs w).1 =
    set_Proxylist (map swapped (Proxylist (conf fs)))
      (set_filtersUpdated false fs) /\
  (forall f, In f (Proxylist (conf (applyUpdate env fs w).1)) -> ~ pending f) /\
  map identity (Proxylist (conf (applyUpdate env fs w).1)) =
    map identity (Proxylist (conf fs)).
Proof.
  intros Hflag. rewrite applyUpdate_store, Hflag.
  split; [reflexivity |]. cbn [set_Proxylist conf Proxylist].
  split.
  - intros f Hin Hp. apply in_map_iff in Hin as (g & <- & _).
    apply pendingb_pending in Hp. now rewrite swapped_not_pending in Hp.
  - rewrite map_map. apply map_ext. intros f. unfold swapped.
    now destruct (pendingb f).
Qed.

Lemma applyUpdate_result_store_witness :
  filtersUpdated store_pending = true /\
  (applyUpdate env_ok store_pending world0).1 =
    (applyUpdate env_ok store_pending world_pending).1 /\
  Proxylist (conf (applyUpdate env_ok store_pending world0).1) =
    [set_newID 0 filterPending].
Proof.
  split; [reflexivity |].
  destruct (applyUpdate_result_store env_ok store_pending world0 eq_refl)
    as (H0 & _).
  destruct (applyUpdate_result_store env_ok store_pending world_pending eq_refl)
    as (H1 & _).
  split; [now rewrite H0, H1 | now rewrite H0].
Defined.

(** X9.  The swap applier changes no file but the pending files and the
    active files of the records that have a pending revision. *)
Theorem applyUpdate_other_files (env : Env) (fs : Filters) (w : World)
  (p : string) :
  (forall g, In g (Proxylist (conf fs)) -> pending g ->
             p <> revisionPath fs (newID g) /\ p <> filterPath fs g) ->
  files (applyUpdate env fs w).2 !! p = files w !! p.
Proof.
  intros H. unfold applyUpdate.
  destruct (filtersUpdated fs); cbn [negb]; [| reflexivity].
  assert (HF : Forall (fun g => pending g ->
                         p <> revisionPath (set_filtersUpdated false fs) (newID g)
                         /\ p <> filterPath (set_filtersUpdated false fs) g)
                 (Proxylist (conf (set_filtersUpdated false fs)))).
  { apply Forall_forall. intros g Hg. apply list_elem_of_In in Hg.
    exact (H g Hg). }
  pose proof (applyUpdate_loop_frame env _ _ p HF
                (NotifyUsers (set_filtersUpdated false fs) EventBeforeUpdate w)
                0%Z) as Hloop.
  destruct (applyUpdate_loop env _ _ _ 0) as [[l w1] n1].
  cbn [fst snd] in *. now rewrite NotifyUsers_files, Hloop, NotifyUsers_files.
Qed.

Lemma applyUpdate_other_files_witness :
  files (applyUpdate env_ok store_pending
           (set_files (<["/data/2.txt" := body_old]> (files world_pending))
              world_pending)).2 !! "/data/2.txt" = Some body_old.
Proof.
  rewrite (applyUpdate_other_files env_ok store_pending _ "/data/2.txt").
  - reflexivity.
  - intros g [<-|[]] _. split; discriminate.
Defined.

(** ** Delete and Modify *)

Lemma filter_none_match (url : string) (l : list Filter) :
  (forall f, In f l -> URL f <> url) ->
  List.filter (fun f => negb (String.eqb (URL f) url)) l = l.
Proof.
  induction l as [|x l IH]; intros H; simpl; [reflexivity |].
  destruct (String.eqb_spec (URL x) url) as [E|_].
  - exfalso. apply (H x); [now left | exact E].
  - simpl. rewrite IH; [reflexivity |]. intros g Hg. apply H. now right.
Qed.

Lemma set_Proxylist_same (fs : Filters) :
  set_Proxylist (Proxylist (conf fs)) fs = fs.
Proof. destruct fs as [a b [d h l] u]. reflexivity. Qed.

(** Where [found] is not nil it points to a variable that has been
    assigned. *)
Lemma Delete_loop_found_assigned (sem : LoopVar) (url : string)
  (l : list Filter) :
  forall i nf found mem,
    (forall a, found = Some a -> is_Some (mem !! a)) ->
    forall a, (Delete_loop sem url i l nf found mem).1.2 = Some a ->
              is_Some ((Delete_loop sem url i l nf found mem).2 !! a).
Proof.
  induction l as [|x l IH]; intros i nf found mem Hinv; simpl; [exact Hinv |].
  destruct (String.eqb (URL x) url); apply IH; intros a Ha.
  - inversion Ha; subst. rewrite lookup_insert_eq. eauto.
  - destruct (decide (addr_of_f sem i = a)) as [->|Hne].
    + rewrite lookup_insert_eq. eauto.
    + rewrite lookup_insert_ne by exact Hne. now apply Hinv.
Qed.

(** The collection that [Delete] leaves, under either semantics of the
    loop variable. *)
Lemma Delete_collection (sem : LoopVar) (url : string) (fs : Filters) :
  (Delete sem url fs).1 =
  set_Proxylist
    (List.filter (fun f => negb (String.eqb (URL f) url))
       (Proxylist (conf fs))) fs.
Proof.
  destruct (url_match_dec (Proxylist (conf fs)) url) as [Hex|Hno].
  - unfold Delete.
    pose proof (Delete_loop_nf sem url (Proxylist (conf fs)) 0 [] None ∅) as Hnf.
    pose proof (Delete_loop_found sem url _ Hex 0 [] None ∅) as Hsome.
    pose proof (Delete_loop_found_assigned sem url (Proxylist (conf fs))
                  0 [] None ∅) as Hmem.
    destruct (Delete_loop sem url 0 (Proxylist (conf fs)) [] None ∅)
      as [[nf found] mem].
    cbn [fst snd] in *. destruct found as [a|]; [| congruence].
    destruct (Hmem ltac:(discriminate) a eq_refl) as [f Hf].
    rewrite Hf. cbn [fst]. now subst nf.
  - rewrite (Delete_not_found sem url fs Hno). cbn [fst].
    now rewrite (filter_none_match url _ Hno), set_Proxylist_same.
Qed.

Lemma Delete_result_None (sem : LoopVar) (url : string) (fs : Filters) :
  (Delete sem url fs).2 = None <->
  (forall f, In f (Proxylist (conf fs)) -> URL f <> url).
Proof.
  split.
  - intros HN. destruct (url_match_dec (Proxylist (conf fs)) url)
      as [Hex|Hno]; [| exact Hno].
    exfalso. unfold Delete in HN.
    pose proof (Delete_loop_found sem url _ Hex 0 [] None ∅) as Hsome.
    pose proof (Delete_loop_found_assigned sem url (Proxylist (conf fs))
                  0 [] None ∅) as Hmem.
    destruct (Delete_loop sem url 0 (Proxylist (conf fs)) [] None ∅)
      as [[nf found] mem].
    cbn [fst snd] in *. destruct found as [a|]; [| congruence].
    destruct (Hmem ltac:(discriminate) a eq_refl) as [f Hf].
    rewrite Hf in HN. discriminate HN.
  - intros Hno. now rewrite (Delete_not_found sem url fs Hno).
Qed.

(** X10.  Under either semantics of the loop variable, [Delete] leaves
    the records whose URL is not the given one, in their order, and
    removes every record that has it; the directory, the interval, the
    mark and the observers are as before; the result is nil exactly when
    no record has the URL. *)
Theorem Delete_removes_every_match (sem : LoopVar) (url : string)
  (fs : Filters) :
  (Delete sem url fs).1 =
    set_Proxylist
      (List.filter (fun f => negb (String.eqb (URL f) url))
         (Proxylist (conf fs))) fs /\
  ((Delete sem url fs).2 = None <->
   (forall f, In f (Proxylist (conf fs)) -> URL f <> url)).
Proof. split; [apply Delete_collection | apply Delete_result_None]. Qed.

(** X11.  After [Delete] of a URL no record of the collection has it: a
    second [Delete] of the same URL returns nil and changes nothing. *)
Theorem Delete_twice (sem sem2 : LoopVar) (url : string) (fs : Filters) :
  Delete sem2 url (Delete sem url fs).1 = ((Delete sem url fs).1, None).
Proof.
  apply Delete_not_found. rewrite Delete_collection.
  cbn [set_Proxylist conf Proxylist]. intros f Hf.
  apply filter_In in Hf as [_ Hf]. apply negb_true_iff in Hf.
  now apply String.eqb_neq.
Qed.

(** With a variable for each iteration, [found] points to the variable
    of an iteration whose record has the URL. *)
Lemma Delete_loop_PerIteration (url : string) (L l : list Filter) :
  (forall x, In x l -> In x L) ->
  forall i nf found mem,
    (forall a, found = Some a ->
       a < i /\ exists f, mem !! a = Some f /\ In f L /\ URL f = url) ->
    forall a, (Delete_loop PerIteration url i l nf found mem).1.2 = Some a ->
      exists f, (Delete_loop PerIteration url i l nf found mem).2 !! a = Some f
                /\ In f L /\ URL f = url.
Proof.
  induction l as [|x l IH]; intros HL i nf found mem Hinv; simpl.
  - intros a Ha. destruct (Hinv a Ha) as (_ & f & H). exists f. exact H.
  - assert (HL' : forall y, In y l -> In y L) by (intros y Hy; apply HL; now right).
    destruct (String.eqb_spec (URL x) url) as [E|NE]; apply (IH HL');
      intros a Ha.
    + inversion Ha; subst a. split; [lia |]. exists x.
      rewrite lookup_insert_eq. split; [reflexivity |].
      split; [apply HL; now left | exact E].
    + destruct (Hinv a Ha) as (Hlt & f & Hf & Hin & Hu).
      split; [lia |]. exists f.
      rewrite lookup_insert_ne by lia. auto.
Qed.

Lemma Delete_PerIteration_found (url : string) (fs : Filters) (r : Filter) :
  (Delete PerIteration url fs).2 = Some r ->
  exists f,
    In f (Proxylist (conf fs)) /\ URL f = url /\
    r = set_Path (filterPath fs f) f.
Proof.
  unfold Delete.
  pose proof (Delete_loop_PerIteration url (Proxylist (conf fs))
                (Proxylist (conf fs)) (fun x H => H) 0 [] None ∅) as Hinv.
  destruct (Delete_loop PerIteration url 0 (Proxylist (conf fs)) [] None ∅)
    as [[nf found] mem].
  cbn [fst snd] in *. destruct found as [a|]; [| discriminate].
  destruct (Hinv ltac:(discriminate) a eq_refl) as (f & Hf & Hin & Hu).
  rewrite Hf. cbn [snd]. intros H. inversion H; subst r.
  exists f. auto.
Qed.

(** X12.  With a variable for each iteration (Go 1.22 and later), the
    record that [Delete] returns is a record of the collection that has
    the URL, with the path of its file. *)
Theorem Delete_PerIteration_returns_match (url : string) (fs : Filters)
  (r : Filter) :
  (Delete PerIteration url fs).2 = Some r ->
  exists f,
    In f (Proxylist (conf fs)) /\ URL f = url /\
    r = set_Path (filterPath fs f) f.
Proof. apply Delete_PerIteration_found. Qed.

Lemma Delete_PerIteration_returns_match_witness :
  (Delete PerIteration "http://a/list.txt" store_dup).2
    = Some (set_Path "/data/3.txt" filterA') /\
  exists f,
    In f (Proxylist (conf store_dup)) /\ URL f = "http://a/list.txt" /\
    set_Path "/data/3.txt" filterA' = set_Path (filterPath store_dup f) f.
Proof.
  split; [reflexivity |].
  exact (Delete_PerIteration_returns_match "http://a/list.txt" store_dup
           (set_Path "/data/3.txt" filterA') eq_refl).
Defined.

(** X26.  With one variable for the whole loop (Go before 1.22),
    whenever some record has the URL, [Delete] returns the last record
    of the collection with the path of that record's file, whichever
    record had the URL. *)
Theorem Delete_PerLoop_returns_last_record (url : string) (fs : Filters)
  (l : list Filter) (x : Filter) :
  Proxylist (conf fs) = (l ++ [x])%list ->
  (exists f, In f (l ++ [x]) /\ URL f = url) ->
  (Delete PerLoop url fs).2 = Some (set_Path (filterPath fs x) x).
Proof.
  intros Hl Hex.
  now rewrite (Delete_PerLoop_returns_last url fs l x Hl Hex).
Qed.

Lemma Delete_PerLoop_returns_last_record_witness :
  Proxylist (conf store_ab) = ([filterA] ++ [filterB])%list /\
  (exists f, In f ([filterA] ++ [filterB]) /\ URL f = "http://a/list.txt") /\
  (Delete PerLoop "http://a/list.txt" store_ab).2
    = Some (set_Path (filterPath store_ab filterB) filterB).
Proof.
  assert (Hex : exists f, In f ([filterA] ++ [filterB])
                          /\ URL f = "http://a/list.txt")
    by (exists filterA; split; [now left | reflexivity]).
  split; [reflexivity | split; [exact Hex |]].
  exact (Delete_PerLoop_returns_last_record "http://a/list.txt" store_ab
           [filterA] filterB eq_refl Hex).
Defined.

Lemma Modify_loop_absent (url : string) (enabled : bool) (name newURL : string)
  (l : list Filter) (st : Z) :
  (forall f, In f l -> URL f <> url) ->
  Modify_loop url enabled name newURL l st = st.
Proof.
  induction l as [|f l IH]; intros H; simpl; [reflexivity |].
  destruct (String.eqb_spec (URL f) url) as [E|_].
  - exfalso. apply (H f); [now left | exact E].
  - apply IH. intros g Hg. apply H. now right.
Qed.

(** X13.  [Modify] of a URL that no record has returns
    [StatusNotFound] and the store as it was. *)
Theorem Modify_absent (url : string) (enabled : bool) (name newURL : string)
  (fs : Filters) :
  (forall f, In f (Proxylist (conf fs)) -> URL f <> url) ->
  Modify url enabled name newURL fs = (fs, StatusNotFound).
Proof.
  intros H. unfold Modify. now rewrite Modify_loop_absent.
Qed.

Lemma Modify_absent_witness :
  (forall f, In f (Proxylist (conf store_ab)) -> URL f <> "http://c/list.txt")
  /\ Modify "http://c/list.txt" true "c" "http://d/list.txt" store_ab
     = (store_ab, StatusNotFound).
Proof.
  assert (H : forall f, In f (Proxylist (conf store_ab))
                        -> URL f <> "http://c/list.txt")
    by (intros f [<-|[<-|[]]]; discriminate).
  split; [exact H |].
  exact (Modify_absent "http://c/list.txt" true "c" "http://d/list.txt"
           store_ab H).
Defined.

(** X14.  The status that [Modify] returns is read off the first record
    that has the URL: [StatusChangedEnabled] is set when its flag is not
    the given one, [StatusChangedURL] when the new URL is another one,
    and the status is [StatusNotFound] when neither is the case, also
    when only the name is new.  The store is returned as it was. *)
Theorem Modify_status (url : string) (enabled : bool) (name newURL : string)
  (fs : Filters) (l1 : list Filter) (F : Filter) (l2 : list Filter) :
  Proxylist (conf fs) = (l1 ++ F :: l2)%list ->
  Forall (fun g => URL g <> url) l1 ->
  URL F = url ->
  Modify url enabled name newURL fs =
  (fs,
   match Bool.eqb (Enabled F) enabled, String.eqb url newURL with
   | true, true => StatusNotFound
   | false, true => StatusChangedEnabled
   | true, false => StatusChangedURL
   | false, false => Z.lor StatusChangedEnabled StatusChangedURL
   end).
Proof.
  intros Hl H1 HF. unfold Modify. rewrite Hl.
  assert (Hloop : forall st,
            Modify_loop url enabled name newURL (l1 ++ F :: l2) st =
            Modify_loop url enabled name newURL (F :: l2) st).
  { clear Hl. intros st. induction H1 as [|g l1 Hg _ IH]; [reflexivity |].
    rewrite <- IH. apply String.eqb_neq in Hg.
    change ((g :: l1) ++ F :: l2)%list with (g :: (l1 ++ F :: l2))%list.
    generalize (l1 ++ F :: l2)%list. intros l. simpl. now rewrite Hg. }
  rewrite Hloop. cbn [Modify_loop]. subst url. rewrite String.eqb_refl.
  cbn [set_Name Enabled URL set_Enabled].
  destruct (Bool.eqb (Enabled F) enabled); cbn;
    destruct (String.eqb (URL F) newURL); reflexivity.
Qed.

Lemma Modify_status_witness :
  Modify "http://b/list.txt" true "b2" "http://b/list.txt" store_ab
    = (store_ab, StatusNotFound) /\
  Modify "http://b/list.txt" false "b" "http://b/list.txt" store_ab
    = (store_ab, StatusChangedEnabled).
Proof.
  split.
  - apply (Modify_status "http://b/list.txt" true "b2" "http://b/list.txt"
             store_ab [filterA] filterB []); [reflexivity | | reflexivity].
    constructor; [discriminate | constructor].
  - apply (Modify_status "http://b/list.txt" false "b" "http://b/list.txt"
             store_ab [filterA] filterB []); [reflexivity | | reflexivity].
    constructor; [discriminate | constructor].
Defined.

(** ** Add, and what follows it *)

Lemma Add_success (env : Env) (nf : Filter) (fs : Filters) (w : World)
  (fs' : Filters) (w' : World) :
  Add env nf fs w = (fs', w', None) ->
  ~ collides nf fs /\
  exists body,
    download env (URL nf) = inl body /\
    fs' = set_Proxylist
            (Proxylist (conf fs) ++
             [set_LastUpdated (clock env (S (ticks w)))
                (parseFilter
                   (set_Enabled true (set_ID (nextFilterID env w).1 nf)) body)])
            fs /\
    files w' = <[revisionPath fs (nextFilterID env w).1 := body]> (files w) /\
    ticks w' = S (S (ticks w)) /\
    trace w' = trace w.
Proof.
  unfold Add. destruct (existsb _ _) eqn:Hex; [discriminate |].
  intros H. split.
  { intros Hc. apply collides_existsb in Hc. congruence. }
  cbn [nextFilterID time_Now fst] in *.
  unfold downloadFilter, SafeWrite in H.
  cbn [URL set_Enabled set_ID] in H.
  destruct (download env (URL nf)) as [body|e]; [| discriminate].
  exists body. split; [reflexivity |].
  change (filterPath fs (parseFilter ?f body)) with (filterPath fs f) in H.
  change (filterPath fs (set_Enabled true (set_ID ?n nf)))
    with (revisionPath fs n) in H.
  destruct (write_fails env _); [discriminate |].
  cbn in H. inversion H; subst. repeat split.
Qed.

Lemma set_Proxylist_twice (l k : list Filter) (fs : Filters) :
  set_Proxylist l (set_Proxylist k fs) = set_Proxylist l fs.
Proof. reflexivity. Qed.

Lemma no_collision_URL (nf : Filter) (fs : Filters) :
  ~ collides nf fs ->
  forall f, In f (Proxylist (conf fs)) -> URL f <> URL nf.
Proof. intros H f Hin E. apply H. exists f. auto. Qed.

(** X15.  After a successful [Add], [Delete] of the URL of the new
    record gives back the store as it was before [Add], and returns the
    record that [Add] appended with the path of the file that [Add]
    wrote, under either semantics of the loop variable. *)
Theorem Add_then_Delete (env : Env) (nf : Filter) (fs : Filters) (w : World)
  (fs1 : Filters) (w1 : World) (sem : LoopVar) :
  Add env nf fs w = (fs1, w1, None) ->
  exists nf',
    Proxylist (conf fs1) = (Proxylist (conf fs) ++ [nf'])%list /\
    Delete sem (URL nf) fs1 = (fs, Some (set_Path (filterPath fs nf') nf')) /\
    is_Some (files w1 !! filterPath fs nf').
Proof.
  intros HA. apply Add_success in HA
    as (Hno & body & Hb & -> & Hfiles & _ & _).
  set (nf' := set_LastUpdated _ _). exists nf'.
  split; [reflexivity |].
  pose proof (no_collision_URL nf fs Hno) as Hurl.
  split.
  - assert (Hst : (Delete sem (URL nf)
                     (set_Proxylist (Proxylist (conf fs) ++ [nf']) fs)).1 = fs).
    { rewrite Delete_collection. cbn [set_Proxylist conf Proxylist].
      rewrite set_Proxylist_twice, List.filter_app.
      rewrite (filter_none_match _ _ Hurl). cbn [List.filter].
      change (URL nf') with (URL nf). rewrite String.eqb_refl. cbn [negb].
      rewrite app_nil_r. apply set_Proxylist_same. }
    assert (Hex : exists f, In f (Proxylist (conf fs) ++ [nf'])
                            /\ URL f = URL nf)
      by (exists nf'; split; [apply in_or_app; right; now left | reflexivity]).
    destruct sem.
    + rewrite (Delete_PerLoop_returns_last (URL nf)
                 (set_Proxylist (Proxylist (conf fs) ++ [nf']) fs)
                 (Proxylist (conf fs)) nf' eq_refl Hex) in Hst |- *.
      cbn [fst] in Hst. now rewrite Hst.
    + destruct (Delete PerIteration (URL nf) _) as [fs2 [r|]] eqn:HD.
      * cbn [fst] in Hst. subst fs2.
        destruct (Delete_PerIteration_found (URL nf) _ r
                    ltac:(rewrite HD; reflexivity)) as (f & Hin & Hf & ->).
        cbn [set_Proxylist conf Proxylist] in Hin.
        apply in_app_or in Hin as [Hin|[<-|[]]].
        -- exfalso. exact (Hurl f Hin Hf).
        -- reflexivity.
      * exfalso.
        assert (HN : (Delete PerIteration (URL nf)
                        (set_Proxylist (Proxylist (conf fs) ++ [nf']) fs)).2
                     = None) by now rewrite HD.
        pose proof (proj1 (Delete_result_None _ _ _) HN) as HN'.
        destruct Hex as (f & Hin & Hf). exact (HN' f Hin Hf).
  - rewrite Hfiles. change (filterPath fs nf')
      with (revisionPath fs (nextFilterID env w).1).
    rewrite lookup_insert_eq. eauto.
Qed.

Lemma Add_then_Delete_witness :
  exists fs1 w1 nf',
    Add env_ok filterC store_a world0 = (fs1, w1, None) /\
    Delete PerLoop (URL filterC) fs1
      = (store_a, Some (set_Path (filterPath store_a nf') nf')).
Proof.
  destruct (Add env_ok filterC store_a world0) as [[fs1 w1] r] eqn:HA.
  assert (Hr : r = None) by (vm_compute in HA; now inversion HA).
  subst r.
  destruct (Add_then_Delete env_ok filterC store_a world0 fs1 w1 PerLoop HA)
    as (nf' & _ & HD & _).
  exists fs1, w1, nf'. split; [reflexivity | exact HD].
Defined.

(** X16.  [Add] keeps the collection free of duplicates: when no two
    records share a name and no two a URL before the call, the same
    holds after it, whether it fails or succeeds. *)
Theorem Add_keeps_unique (env : Env) (nf : Filter) (fs : Filters) (w : World)
  (fs' : Filters) (w' : World) (r : option error) :
  unique fs ->
  Add env nf fs w = (fs', w', r) ->
  unique fs'.
Proof.
  intros [HN HU] HA. destruct r as [e|].
  - now rewrite (Add_error_keeps_store env nf fs w fs' w' e HA).
  - apply Add_success in HA as (Hno & body & _ & -> & _).
    unfold unique. cbn [set_Proxylist conf Proxylist].
    rewrite !map_app. cbn [map Name URL set_LastUpdated parseFilter
                             set_RuleCount set_Enabled set_ID].
    split; apply NoDup_app; (split; [assumption |]);
      (split; [| apply NoDup_singleton]);
      intros x Hx Hx'; apply list_elem_of_singleton in Hx'; subst x;
      apply list_elem_of_In, in_map_iff in Hx as (f & Hf & Hin);
      apply Hno; exists f; auto.
Qed.

Lemma Add_keeps_unique_witness :
  unique store_a /\
  forall fs' w' r, Add env_ok filterC store_a world0 = (fs', w', r) ->
                   unique fs'.
Proof.
  assert (H : unique store_a).
  { split; cbn; apply NoDup_singleton. }
  split; [exact H |]. intros fs' w' r.
  exact (Add_keeps_unique env_ok filterC store_a world0 fs' w' r H).
Defined.

(** X17.  Two calls of [Add] that read the same second from the clock
    give both records the same id and so the same file: after the second
    call the file holds the body of the second record. *)
Theorem Add_twice_same_second (env env2 : Env) (nf nf2 : Filter)
  (fs : Filters) (w : World) (fs1 : Filters) (w1 : World)
  (fs2 : Filters) (w2 : World) :
  Add env nf fs w = (fs1, w1, None) ->
  Add env2 nf2 fs1 w1 = (fs2, w2, None) ->
  (nextFilterID env2 w1).1 = (nextFilterID env w).1 ->
  exists a b body2,
    Proxylist (conf fs2) = (Proxylist (conf fs) ++ [a; b])%list /\
    URL a = URL nf /\ URL b = URL nf2 /\
    ID a = ID b /\
    filterPath fs2 a = filterPath fs2 b /\
    download env2 (URL nf2) = inl body2 /\
    files w2 !! filterPath fs2 a = Some body2.
Proof.
  intros H1 H2 Hid.
  apply Add_success in H1 as (_ & body & _ & -> & _).
  apply Add_success in H2 as (_ & body2 & Hb2 & -> & Hf2 & _).
  rewrite Hid in *.
  do 2 eexists. exists body2.
  cbn [set_Proxylist conf Proxylist]. rewrite <- app_assoc.
  split; [reflexivity |].
  split; [reflexivity | split; [reflexivity | split; [reflexivity |]]].
  split; [reflexivity | split; [exact Hb2 |]].
  rewrite Hf2. apply lookup_insert_eq.
Qed.

Lemma Add_twice_same_second_witness :
  exists fs1 w1 fs2 w2 a b,
    Add env_second_6_old filterC store_empty world0 = (fs1, w1, None) /\
    Add env_second_6 filterA fs1 w1 = (fs2, w2, None) /\
    Proxylist (conf fs2) = [a; b] /\ ID a = ID b /\
    files w2 !! filterPath fs2 a = Some body_ex.
Proof.
  destruct (Add env_second_6_old filterC store_empty world0)
    as [[fs1 w1] r1] eqn:H1.
  assert (Hr1 : r1 = None) by (vm_compute in H1; now inversion H1).
  subst r1.
  destruct (Add env_second_6 filterA fs1 w1) as [[fs2 w2] r2] eqn:H2.
  assert (Hr2 : r2 = None).
  { vm_compute in H1. inversion H1; subst. vm_compute in H2. now inversion H2. }
  subst r2.
  destruct (Add_twice_same_second env_second_6_old env_second_6 filterC filterA
              store_empty world0 fs1 w1 fs2 w2 H1 H2 eq_refl)
    as (a & b & body2 & Hl & _ & _ & Hid & _ & Hb & Hf).
  exists fs1, w1, fs2, w2, a, b.
  split; [reflexivity | split; [exact H2 |]].
  split; [exact Hl | split; [exact Hid |]].
  rewrite Hf. vm_compute in Hb. now inversion Hb.
Defined.

(** X18.  Once a record has been added, every later [Add] of a record
    with its name or its URL fails with the duplicate error and changes
    neither the store nor the world. *)
Theorem Add_then_duplicate (env env2 : Env) (nf nf2 : Filter) (fs : Filters)
  (w : World) (fs1 : Filters) (w1 w2 : World) :
  Add env nf fs w = (fs1, w1, None) ->
  Name nf2 = Name nf \/ URL nf2 = URL nf ->
  Add env2 nf2 fs1 w2 = (fs1, w2, Some ErrExists) /\
  length (Proxylist (conf fs1)) = S (length (Proxylist (conf fs))).
Proof.
  intros HA Hsame. apply Add_success in HA as (_ & body & _ & -> & _).
  split.
  - apply Add_duplicate. eexists. cbn [set_Proxylist conf Proxylist].
    split; [apply in_or_app; right; now left |].
    cbn [Name URL set_LastUpdated parseFilter set_RuleCount set_Enabled set_ID].
    destruct Hsame as [H|H]; [left | right]; now rewrite H.
  - cbn [set_Proxylist conf Proxylist]. rewrite length_app. cbn. lia.
Qed.

Lemma Add_then_duplicate_witness :
  exists fs1 w1,
    Add env_ok filterC store_a world0 = (fs1, w1, None) /\
    Add env_ok (set_Name "other" filterC) fs1 w1 = (fs1, w1, Some ErrExists).
Proof.
  destruct (Add env_ok filterC store_a world0) as [[fs1 w1] r] eqn:HA.
  assert (Hr : r = None) by (vm_compute in HA; now inversion HA).
  subst r. exists fs1, w1. split; [reflexivity |].
  exact (proj1 (Add_then_duplicate env_ok env_ok filterC
                  (set_Name "other" filterC) store_a world0 fs1 w1 w1 HA
                  (or_intror eq_refl))).
Defined.

(** ** Start and the snapshot of the configuration *)

Lemma arrayFilterDup_id (f : list Filter) : arrayFilterDup f = f.
Proof.
  unfold arrayFilterDup, copy. rewrite length_replicate.
  rewrite take_ge by lia.
  rewrite drop_ge by (rewrite length_replicate; lia).
  apply app_nil_r.
Qed.

(** X19.  [WriteDiskConfig] hands out the configuration of the store,
    with the records of the collection in their order and nothing
    before them, and leaves the store as it is. *)
Theorem WriteDiskConfig_snapshot (fs : Filters) :
  WriteDiskConfig fs = (fs, conf fs).
Proof.
  unfold WriteDiskConfig. rewrite arrayFilterDup_id.
  destruct (conf fs). reflexivity.
Qed.

Lemma Start_record_keeps (stat : string -> option Go.Time) (fs : Filters)
  (w : World) (f : Filter) :
  identity (Start_record stat fs w f) = identity f /\
  newID (Start_record stat fs w f) = newID f /\
  Path (Start_record stat fs w f) = Path f.
Proof.
  unfold Start_record. destruct (stat (filterPath fs f)); [| repeat split].
  destruct (files w !! filterPath fs f); repeat split.
Qed.

Lemma Start_map_identity (stat : string -> option Go.Time) (fs : Filters)
  (w : World) :
  map identity (Proxylist (conf (Start stat fs w).1))
  = map identity (Proxylist (conf fs)).
Proof.
  assert (Hl : Proxylist (conf (Start stat fs w).1) =
               map (Start_record stat fs w) (Proxylist (conf fs))).
  { unfold Start. cbn [set_Proxylist updateTaskRunning].
    destruct (updateTaskRunning fs); reflexivity. }
  rewrite Hl, map_map. apply map_ext. intros f. apply Start_record_keeps.
Qed.

(** X20.  After [Start] the update task is marked as running; the call
    starts the task exactly when it was not marked as running before, so
    a second [Start] never starts a second task.  [Start] keeps the
    number and order of the records, their ids, flags, names, URLs,
    paths and pending ids, the directory, the mark and the observers. *)
Theorem Start_outcome (stat : string -> option Go.Time) (fs : Filters)
  (w : World) :
  let r := Start stat fs w in
  updateTaskRunning r.1 = true /\
  r.2 = negb (updateTaskRunning fs) /\
  (forall stat2 w2, (Start stat2 r.1 w2).2 = false) /\
  map identity (Proxylist (conf r.1)) = map identity (Proxylist (conf fs)) /\
  map newID (Proxylist (conf r.1)) = map newID (Proxylist (conf fs)) /\
  map Path (Proxylist (conf r.1)) = map Path (Proxylist (conf fs)) /\
  FilterDir (conf r.1) = FilterDir (conf fs) /\
  filtersUpdated r.1 = filtersUpdated fs /\
  Users r.1 = Users fs.
Proof.
  assert (Hrun : updateTaskRunning (Start stat fs w).1 = true).
  { unfold Start. cbn [set_Proxylist updateTaskRunning].
    destruct (updateTaskRunning fs) eqn:E; cbn; [exact E | reflexivity]. }
  assert (Hl : Proxylist (conf (Start stat fs w).1) =
               map (Start_record stat fs w) (Proxylist (conf fs))).
  { unfold Start. cbn [set_Proxylist updateTaskRunning].
    destruct (updateTaskRunning fs); reflexivity. }
  cbn zeta. split; [exact Hrun |].
  split.
  { unfold Start. cbn [set_Proxylist updateTaskRunning].
    destruct (updateTaskRunning fs); reflexivity. }
  split.
  { intros stat2 w2. unfold Start at 1.
    cbn [set_Proxylist updateTaskRunning]. now rewrite Hrun. }
  rewrite Hl, !map_map.
  split; [apply map_ext; intros f; apply Start_record_keeps |].
  split; [apply map_ext; intros f; apply Start_record_keeps |].
  split; [apply map_ext; intros f; apply Start_record_keeps |].
  unfold Start. cbn [set_Proxylist updateTaskRunning].
  destruct (updateTaskRunning fs); repeat split.
Qed.

(** X21.  [Start] leaves a record whose file cannot be examined as it
    is; a record whose file can be examined gets the modification time
    of the file as its update time and that time plus the interval as
    its next update. *)
Theorem Start_record_times (stat : string -> option Go.Time) (fs : Filters)
  (w : World) (i : nat) (f : Filter) :
  Proxylist (conf fs) !! i = Some f ->
  match stat (filterPath fs f) with
  | None => Proxylist (conf (Start stat fs w).1) !! i = Some f
  | Some t =>
      exists f',
        Proxylist (conf (Start stat fs w).1) !! i = Some f' /\
        LastUpdated f' = t /\
        nextUpdate f' = Go.Add t (Go.hours (UpdateIntervalHours (conf fs)))
  end.
Proof.
  intros Hi.
  assert (Hl : Proxylist (conf (Start stat fs w).1) !! i =
               Some (Start_record stat fs w f)).
  { unfold Start. cbn [set_Proxylist updateTaskRunning].
    destruct (updateTaskRunning fs); cbn;
      apply (map_lookup_Some _ _ _ _ Hi). }
  rewrite Hl. unfold Start_record.
  destruct (stat (filterPath fs f)) as [t|]; [| reflexivity].
  eexists. split; [reflexivity |].
  destruct (files w !! filterPath fs f); split; reflexivity.
Qed.

Lemma Start_record_times_witness :
  Proxylist (conf store_a) !! 0 = Some filterA /\
  Proxylist (conf (Start (fun _ => None) store_a world_a).1) !! 0
    = Some filterA /\
  exists f',
    Proxylist (conf (Start (fun _ => Some 42%Z) store_a world_a).1) !! 0
      = Some f' /\
    LastUpdated f' = 42%Z.
Proof.
  split; [reflexivity |]. split.
  - exact (Start_record_times (fun _ => None) store_a world_a 0 filterA eq_refl).
  - destruct (Start_record_times (fun _ => Some 42%Z) store_a world_a 0
                filterA eq_refl) as (f' & Hf & Ht & _).
    exists f'. split; [exact Hf | exact Ht].
Defined.

(** ** The observers *)

(** X22.  [NotifyUsers] calls every registered handler once, in the
    order of registration, and does nothing else; a handler registered
    with [AddUser] is called after the handlers registered before
    it. *)
Theorem NotifyUsers_AddUser (h : EventHandler) (fs : Filters) (flags : N)
  (w : World) :
  NotifyUsers fs flags w =
    mkWorld (files w)
      (trace w ++ map (fun u => EvNotify u flags) (Users fs)) (ticks w) /\
  NotifyUsers (AddUser h fs) flags w =
    emit [EvNotify h flags] (NotifyUsers fs flags w).
Proof.
  split.
  - now rewrite NotifyUsers_emit.
  - rewrite !NotifyUsers_emit, emit_emit.
    unfold notifications, AddUser. cbn [Users]. now rewrite map_app.
Qed.

(** ** A turn of the scheduler *)

Lemma alter_map_same {A B : Type} (p : A -> B) (g : A -> A) (i : nat)
  (l : list A) :
  (forall x, p (g x) = p x) -> map p (alter g i l) = map p l.
Proof.
  intros H. revert i. induction l as [|x l IH]; intros [|i];
    try reflexivity.
  - change (alter g 0 (x :: l)) with (g x :: l). simpl. now rewrite H.
  - change (alter g (S i) (x :: l)) with (x :: alter g i l). simpl.
    now rewrite IH.
Qed.

Lemma modifyUpdated_loop_map_same {B : Type} (p : Filter -> B) (uf : Filter)
  (l l' : list Filter) :
  (forall f a b c,
      p (set_LastUpdated a (set_RuleCount b (set_newID c f))) = p f) ->
  modifyUpdated_loop uf l = Some l' -> map p l' = map p l.
Proof.
  intros Hp. revert l'. induction l as [|f l IH]; intros l'; simpl;
    [discriminate |].
  destruct (String.eqb (URL f) (URL uf)).
  - intros H. inversion H; subst. simpl. now rewrite Hp.
  - destruct (modifyUpdated_loop uf l) as [k|]; [| discriminate].
    intros H. inversion H; subst. simpl. now rewrite (IH k eq_refl).
Qed.

Lemma modifyUpdated_map_same {B : Type} (p : Filter -> B) (uf : Filter)
  (fs : Filters) :
  (forall f a b c,
      p (set_LastUpdated a (set_RuleCount b (set_newID c f))) = p f) ->
  map p (Proxylist (conf (modifyUpdated uf fs))) = map p (Proxylist (conf fs)).
Proof.
  intros Hp. unfold modifyUpdated.
  destruct (modifyUpdated_loop uf (Proxylist (conf fs))) as [l'|] eqn:E;
    [| reflexivity].
  cbn [set_filtersUpdated set_Proxylist conf Proxylist].
  exact (modifyUpdated_loop_map_same p uf _ _ Hp E).
Qed.

Lemma modifyUpdated_conf (uf : Filter) (fs : Filters) :
  FilterDir (conf (modifyUpdated uf fs)) = FilterDir (conf fs) /\
  UpdateIntervalHours (conf (modifyUpdated uf fs))
    = UpdateIntervalHours (conf fs) /\
  Users (modifyUpdated uf fs) = Users fs.
Proof.
  unfold modifyUpdated. destruct (modifyUpdated_loop _ _); repeat split.
Qed.

(** What a turn that ends normally leaves, for a projection [p] of the
    records that neither the claim nor the recording of a download
    changes. *)
Lemma updateFilters_body_map_same {B : Type} (p : Filter -> B)
  (env : Env) (fs : Filters) (w : World) (fs' : Filters) (w' : World) :
  (forall f t, p (set_nextUpdate t f) = p f) ->
  (forall f a b c,
      p (set_LastUpdated a (set_RuleCount b (set_newID c f))) = p f) ->
  updateFilters_body env fs w = Continue fs' w' ->
  map p (Proxylist (conf fs')) = map p (Proxylist (conf fs)).
Proof.
  intros Hp1 Hp2. unfold updateFilters_body.
  destruct (getNextToUpdate env fs w) as [[fs1 w1] f] eqn:Hg.
  destruct f as [i|]; cbn [load]; [| discriminate].
  apply getNextToUpdate_Some in Hg as [_ ->].
  cbn [set_Proxylist conf Proxylist].
  destruct (alter _ i (Proxylist (conf fs)) !! i) as [uf|] eqn:Hi;
    [| discriminate].
  cbn [nextFilterID time_Now].
  destruct (downloadFilter env _ _ _) as [[uf' w2] [e|]]; intros H;
    inversion H; subst.
  - cbn [set_Proxylist conf Proxylist]. now apply alter_map_same.
  - rewrite (modifyUpdated_map_same p _ _ Hp2).
    cbn [set_Proxylist conf Proxylist]. now apply alter_map_same.
Qed.

(** X23.  A turn of the scheduler's loop that ends normally keeps the
    number and order of the records and the id, the flag, the name and
    the URL of each; it records no event. *)
Theorem updateFilters_body_keeps_identities (env : Env) (fs : Filters)
  (w : World) (fs' : Filters) (w' : World) :
  updateFilters_body env fs w = Continue fs' w' ->
  map identity (Proxylist (conf fs')) = map identity (Proxylist (conf fs)) /\
  trace w' = trace w.
Proof.
  intros H. split.
  - apply (updateFilters_body_map_same identity env fs w fs' w');
      [reflexivity | reflexivity | exact H].
  - pose proof (updateFilters_body_trace env fs w) as Ht.
    now rewrite H in Ht.
Qed.

Lemma updateFilters_body_keeps_identities_witness :
  exists fs' w',
    updateFilters_body env_ok store_ab world0 = Continue fs' w' /\
    map identity (Proxylist (conf fs'))
      = [(1%N, true, "a", "http://a/list.txt");
         (2%N, true, "b", "http://b/list.txt")].
Proof.
  destruct (updateFilters_body env_ok store_ab world0) as [w'|fs' w'] eqn:Hb;
    [vm_compute in Hb; discriminate Hb |].
  exists fs', w'. split; [reflexivity |].
  now rewrite (proj1 (updateFilters_body_keeps_identities env_ok store_ab
                        world0 fs' w' Hb)).
Defined.

(** X24.  When the download of the claimed record fails, the turn ends
    normally: no file has changed, nothing is attached to a record and
    the store is not marked; the claim stands, so the record is tried
    again only when it is due the next time. *)
Theorem updateFilters_body_download_fails (env : Env) (fs : Filters)
  (w : World) (fs1 : Filters) (w1 : World) (i : nat) (F : Filter) (e : error) :
  getNextToUpdate env fs w = (fs1, w1, Some i) ->
  Proxylist (conf fs1) !! i = Some F ->
  download env (URL F) = inr e ->
  updateFilters_body env fs w =
    Continue fs1 (mkWorld (files w) (trace w) (S (S (ticks w)))) /\
  filtersUpdated fs1 = filtersUpdated fs /\
  map newID (Proxylist (conf fs1)) = map newID (Proxylist (conf fs)).
Proof.
  intros Hg Hi He.
  rewrite (updateFilters_body_claimed env fs w fs1 w1 i F Hg Hi).
  rewrite (downloadFilter_download_error env fs1
             (set_ID (nextFilterID env w1).1 F) _ e He).
  destruct (getNextToUpdate_frame env fs w fs1 w1 _ Hg) as (_ & Hfl & _ & ->).
  split; [reflexivity | split; [exact Hfl |]].
  apply getNextToUpdate_Some in Hg as [_ ->].
  cbn [set_Proxylist conf Proxylist]. now apply alter_map_same.
Qed.

Lemma updateFilters_body_download_fails_witness :
  exists fs1,
    updateFilters_body env_404 store_a world_a =
      Continue fs1 (mkWorld (files world_a) [] 2) /\
    map newID (Proxylist (conf fs1)) = [0%N].
Proof.
  exists store_a_claimed.
  destruct (updateFilters_body_download_fails env_404 store_a world_a
              store_a_claimed world_a_claimed 0 filterA_claimed
              (ErrStatus 404)
              ltac:(vm_compute; reflexivity) ltac:(vm_compute; reflexivity)
              eq_refl) as (Hb & _ & Hn).
  split; [exact Hb | exact Hn].
Defined.

(** ** The loop as a whole *)

Lemma due_same_second (a b : Go.Time) (f : Filter) :
  Go.Unix a = Go.Unix b -> due a f = due b f.
Proof. intros H. unfold due. now rewrite H. Qed.

Lemma countDue_same_second (a b : Go.Time) (l : list Filter) :
  Go.Unix a = Go.Unix b -> countDue a l = countDue b l.
Proof.
  intros H. unfold countDue. induction l as [|f l IH]; [reflexivity |].
  simpl. rewrite (due_same_second a b f H).
  destruct (due b f); simpl; now rewrite IH.
Qed.

Lemma countDue_map (now : Go.Time) (l l' : list Filter) :
  map (due now) l = map (due now) l' -> countDue now l = countDue now l'.
Proof.
  unfold countDue. revert l'. induction l as [|f l IH]; intros [|f' l'] H;
    try discriminate; [reflexivity |].
  simpl in H. inversion H as [[Hf Hl]]. simpl. rewrite Hf.
  destruct (due now f'); simpl; now rewrite (IH l' Hl).
Qed.

Lemma nextDue_None_count (now : Go.Time) (l : list Filter) :
  nextDue now l = None <-> countDue now l = 0.
Proof.
  unfold countDue. induction l as [|f l IH]; simpl; [tauto |].
  fold (due now f). destruct (due now f); simpl.
  - split; discriminate.
  - rewrite <- IH. destruct (nextDue now l); simpl; split; congruence.
Qed.

Lemma countDue_claim (now : Go.Time) (g : Filter -> Filter) (l : list Filter)
  (i : nat) :
  (forall f, due now (g f) = false) ->
  nextDue now l = Some i ->
  S (countDue now (alter g i l)) = countDue now l.
Proof.
  intros Hg. unfold countDue. revert i.
  induction l as [|f l IH]; intros i; simpl; [discriminate |].
  fold (due now f). destruct (due now f) eqn:Hf.
  - intros H. inversion H; subst.
    change (alter g 0 (f :: l)) with (g f :: l). simpl. now rewrite Hg.
  - destruct (nextDue now l) as [k|]; [| discriminate].
    intros H. inversion H; subst.
    change (alter g (S k) (f :: l)) with (f :: alter g k l). simpl.
    rewrite Hf. now apply IH.
Qed.

(** A turn within the second [Unix now0], with an interval that does not
    wrap: it panics when no record is due, and otherwise ends normally
    with one due record less. *)
Lemma updateFilters_body_count (env : Env) (fs : Filters) (w : World)
  (now0 : Go.Time) :
  (forall k, Go.Unix (clock env k) = Go.Unix now0) ->
  (1 <= UpdateIntervalHours (conf fs) <= maxHours)%N ->
  match updateFilters_body env fs w with
  | Panicked w' =>
      countDue now0 (Proxylist (conf fs)) = 0 /\ trace w' = trace w
  | Continue fs' w' =>
      S (countDue now0 (Proxylist (conf fs')))
        = countDue now0 (Proxylist (conf fs)) /\
      UpdateIntervalHours (conf fs') = UpdateIntervalHours (conf fs) /\
      trace w' = trace w
  end.
Proof.
  intros Hclock [Hlo Hhi].
  pose proof (updateFilters_body_trace env fs w) as Htrace.
  set (now := clock env (ticks w)).
  assert (Hnow : Go.Unix now = Go.Unix now0) by apply Hclock.
  destruct (nextDue now (Proxylist (conf fs))) as [i|] eqn:Hn.
  - assert (Hg : getNextToUpdate env fs w =
                 (set_Proxylist
                    (alter (set_nextUpdate
                              (Go.Add now
                                 (Go.hours (UpdateIntervalHours (conf fs)))))
                       i (Proxylist (conf fs))) fs,
                  mkWorld (files w) (trace w) (S (ticks w)), Some i)).
    { unfold getNextToUpdate. cbn [time_Now]. fold now. now rewrite Hn. }
    destruct (nextDue_Some _ _ _ Hn) as (f & Hf & _ & _).
    assert (Hcount : S (countDue now0
                          (alter (set_nextUpdate
                                    (Go.Add now
                                       (Go.hours
                                          (UpdateIntervalHours (conf fs)))))
                             i (Proxylist (conf fs))))
                     = countDue now0 (Proxylist (conf fs))).
    { rewrite <- !(countDue_same_second now now0 _ Hnow).
      apply countDue_claim; [| exact Hn].
      intros x. unfold due. cbn [Enabled nextUpdate set_nextUpdate].
      rewrite (Unix_Add_hours now _ Hhi).
      apply andb_false_intro2. apply Z.leb_gt. lia. }
    unfold updateFilters_body in *. rewrite Hg in *.
    cbn [load set_Proxylist conf Proxylist] in *.
    rewrite list_lookup_alter_eq, Hf in *. cbn [fmap option_fmap option_map] in *.
    cbn [nextFilterID time_Now] in *.
    destruct (downloadFilter env _ _ _) as [[uf' w2] [e|]].
    + cbn [set_Proxylist conf Proxylist UpdateIntervalHours].
      split; [exact Hcount | split; [reflexivity | exact Htrace]].
    + split; [| split; [exact (proj1 (proj2 (modifyUpdated_conf uf' _)))
                       | exact Htrace]].
      rewrite <- Hcount. f_equal. apply countDue_map.
      apply (modifyUpdated_map_same (due now0)). reflexivity.
  - assert (Hg : getNextToUpdate env fs w =
                 (fs, mkWorld (files w) (trace w) (S (ticks w)), None)).
    { unfold getNextToUpdate. cbn [time_Now]. fold now. now rewrite Hn. }
    unfold updateFilters_body in *. rewrite Hg in *. cbn [load] in *.
    split; [| exact Htrace].
    rewrite <- (countDue_same_second now now0 _ Hnow).
    now apply nextDue_None_count.
Qed.

Lemma updateFilters_count (env : Env) (now0 : Go.Time) (n : nat) :
  (forall k, Go.Unix (clock env k) = Go.Unix now0) ->
  forall fs w,
    (1 <= UpdateIntervalHours (conf fs) <= maxHours)%N ->
    countDue now0 (Proxylist (conf fs)) = n ->
    exists w', updateFilters (S n) env fs w = Panicked w' /\
               trace w' = trace w.
Proof.
  intros Hclock. induction n as [|n IH]; intros fs w Hh Hc.
  - pose proof (updateFilters_body_count env fs w now0 Hclock Hh) as Hb.
    cbn [updateFilters].
    destruct (updateFilters_body env fs w) as [w'|fs' w'].
    + exists w'. split; [reflexivity | apply Hb].
    + destruct Hb as [Hb _]. rewrite Hc in Hb. discriminate Hb.
  - pose proof (updateFilters_body_count env fs w now0 Hclock Hh) as Hb.
    change (updateFilters (S (S n)) env fs w)
      with (match updateFilters_body env fs w with
            | Panicked w' => Panicked w'
            | Continue fs' w' => updateFilters (S n) env fs' w'
            end).
    destruct (updateFilters_body env fs w) as [w'|fs' w'].
    + destruct Hb as [Hb _]. rewrite Hc in Hb. discriminate Hb.
    + destruct Hb as (Hb & Hh' & Ht).
      rewrite Hc in Hb.
      assert (Hn : countDue now0 (Proxylist (conf fs')) = n) by lia.
      rewrite <- Hh' in Hh.
      destruct (IH fs' w' Hh Hn) as (w'' & Hp & Ht').
      exists w''. split; [exact Hp | now rewrite Ht', Ht].
Qed.

(** X25.  While the clock stays within one second and the interval is
    between 1 and 2562047 hours, the loop of [updateFilters] claims each
    record that is due once and then panics: with [n] due records it
    does not get past [n + 1] turns, and it has called no observer,
    renamed no file and not slept. *)
Theorem updateFilters_panics_after_due_records (env : Env) (fs : Filters)
  (w : World) :
  (forall k, Go.Unix (clock env k) = Go.Unix (clock env 0)) ->
  (1 <= UpdateIntervalHours (conf fs) <= maxHours)%N ->
  exists w',
    updateFilters (S (countDue (clock env 0) (Proxylist (conf fs)))) env fs w
      = Panicked w' /\
    trace w' = trace w.
Proof.
  intros Hclock Hh.
  exact (updateFilters_count env (clock env 0) _ Hclock fs w Hh eq_refl).
Qed.

Lemma updateFilters_panics_after_due_records_witness :
  countDue (clock env_second_6 0) (Proxylist (conf store_ab)) = 2 /\
  exists w', updateFilters 3 env_second_6 store_ab world0 = Panicked w'.
Proof.
  split; [reflexivity |].
  destruct (updateFilters_panics_after_due_records env_second_6 store_ab world0
              (fun k => eq_refl) ltac:(split; discriminate)) as (w' & Hp & _).
  exists w'. exact Hp.
Defined.

(** ** When nothing is due, and the invariant of the collection *)

Lemma nextDue_None_none_due (now : Go.Time) (fs : Filters) :
  nextDue now (Proxylist (conf fs)) = None <-> none_due now fs.
Proof.
  split; [| apply nextDue_none].
  unfold none_due. induction (Proxylist (conf fs)) as [|x l IH]; simpl;
    [intros _ f [] |].
  destruct (Enabled x) eqn:En; simpl.
  - destruct (Go.Unix (nextUpdate x) <=? Go.Unix now)%Z eqn:Hle;
      [discriminate |].
    destruct (nextDue now l); [discriminate |]. intros _ f [<-|Hin] Hf.
    + now apply Z.leb_gt.
    + now apply IH.
  - destruct (nextDue now l); [discriminate |]. intros _ f [<-|Hin] Hf.
    + congruence.
    + now apply IH.
Qed.

(** X27.  [getNextToUpdate] returns nil exactly when every enabled
    record is next due in a later second than the reading of the clock;
    the store is then as it was. *)
Theorem getNextToUpdate_nil_iff (env : Env) (fs : Filters) (w : World) :
  ((getNextToUpdate env fs w).2 = None <->
   none_due (clock env (ticks w)) fs) /\
  ((getNextToUpdate env fs w).2 = None ->
   (getNextToUpdate env fs w).1.1 = fs).
Proof.
  unfold getNextToUpdate. cbn [time_Now].
  rewrite <- nextDue_None_none_due.
  destruct (nextDue _ _); cbn; split; try split; congruence.
Qed.

Lemma getNextToUpdate_nil_iff_witness :
  none_due (clock env_ok (ticks world0)) store_idle /\
  (getNextToUpdate env_ok store_idle world0).2 = None /\
  (getNextToUpdate env_ok store_idle world0).1.1 = store_idle.
Proof.
  assert (H : none_due (clock env_ok (ticks world0)) store_idle).
  { intros f [<-|[]] _. vm_compute. reflexivity. }
  destruct (getNextToUpdate_nil_iff env_ok store_idle world0) as [Hiff Hst].
  split; [exact H |].
  split; [exact (proj2 Hiff H) | exact (Hst (proj2 Hiff H))].
Defined.

Lemma NoDup_map_filter {B : Type} (p : Filter -> B) (q : Filter -> bool)
  (l : list Filter) :
  NoDup (map p l) -> NoDup (map p (List.filter q l)).
Proof.
  induction l as [|x l IH]; simpl; [auto |].
  intros H. apply NoDup_cons in H as [Hx Hl].
  destruct (q x); simpl; [| now apply IH].
  apply NoDup_cons. split; [| now apply IH].
  intros Hin. apply Hx. apply list_elem_of_In in Hin. apply list_elem_of_In.
  apply in_map_iff in Hin as (y & Hy & Hin). apply in_map_iff.
  exists y. split; [exact Hy |]. now apply filter_In in Hin as [Hin _].
Qed.

Lemma unique_identity (fs fs' : Filters) :
  map identity (Proxylist (conf fs')) = map identity (Proxylist (conf fs)) ->
  unique fs -> unique fs'.
Proof.
  intros H [HN HU]. unfold unique.
  assert (Hn : map Name (Proxylist (conf fs')) = map Name (Proxylist (conf fs))).
  { change Name with (fun f => (identity f).1.2).
    rewrite <- !(map_map identity (fun t => t.1.2)). now rewrite H. }
  assert (Hu : map URL (Proxylist (conf fs')) = map URL (Proxylist (conf fs))).
  { change URL with (fun f => (identity f).2).
    rewrite <- !(map_map identity (fun t => t.2)). now rewrite H. }
  now rewrite Hn, Hu.
Qed.

(** X28.  A collection in which no two records share a name and no two
    a URL stays so under [Delete], [Modify], [Start], the recording of
    a download, the swap applier and every turn of the scheduler's loop
    that ends normally. *)
Theorem unique_kept (env : Env) (fs : Filters) (w : World) :
  unique fs ->
  (forall sem url, unique (Delete sem url fs).1) /\
  (forall url enabled name newURL,
      unique (Modify url enabled name newURL fs).1) /\
  (forall stat, unique (Start stat fs w).1) /\
  (forall uf, unique (modifyUpdated uf fs)) /\
  unique (applyUpdate env fs w).1 /\
  (forall fs' w', updateFilters_body env fs w = Continue fs' w' -> unique fs').
Proof.
  intros HU. split; [| split; [| split; [| split; [| split]]]].
  - intros sem url. rewrite Delete_collection. destruct HU as [HN HU].
    split; cbn [set_Proxylist conf Proxylist]; now apply NoDup_map_filter.
  - intros url enabled name newURL. now rewrite Modify_store.
  - intros stat. apply (unique_identity fs); [| exact HU].
    apply Start_map_identity.
  - intros uf. apply (unique_identity fs); [| exact HU].
    apply modifyUpdated_map_same. reflexivity.
  - apply (unique_identity fs); [| exact HU].
    rewrite applyUpdate_store. destruct (filtersUpdated fs); [| reflexivity].
    cbn [set_Proxylist conf Proxylist]. rewrite map_map. apply map_ext.
    intros f. unfold swapped. now destruct (pendingb f).
  - intros fs' w' H. apply (unique_identity fs); [| exact HU].
    apply (updateFilters_body_map_same identity env fs w fs' w');
      [reflexivity | reflexivity | exact H].
Qed.

Lemma unique_kept_witness :
  unique store_ab /\
  unique (Delete PerLoop "http://a/list.txt" store_ab).1 /\
  unique (applyUpdate env_ok store_ab world0).1.
Proof.
  assert (H : unique store_ab).
  { split; apply (bool_decide_unpack _); vm_compute; exact I. }
  destruct (unique_kept env_ok store_ab world0 H) as (HD & _ & _ & _ & HA & _).
  split; [exact H | split; [apply HD | exact HA]].
Defined.

(** ** Ids taken from the clock *)

(** C6.  In a turn that claims a record in the second that is the active
    id of the record, the id of the download is the active id: when the
    download succeeds, the turn ends with the downloaded body in the
    file that is served for the record, before any run of the swap
    applier. *)
Theorem scheduled_download_overwrites_served_file (env : Env) (fs : Filters)
  (w : World) (fs1 : Filters) (w1 : World) (i : nat) (uf : Filter)
  (body : list Byte.byte) :
  getNextToUpdate env fs w = (fs1, w1, Some i) ->
  Proxylist (conf fs1) !! i = Some uf ->
  Go.uint64 (Go.Unix (clock env (ticks w1))) = ID uf ->
  download env (URL uf) = inl body ->
  write_fails env (filterPath fs uf) = false ->
  (nextFilterID env w1).1 = ID uf /\
  exists fs' w',
    updateFilters_body env fs w = Continue fs' w' /\
    files w' !! filterPath fs uf = Some body.
Proof.
  intros Hg Hi Hid Hd Hw. split; [exact Hid |].
  destruct (getNextToUpdate_frame env fs w fs1 w1 _ Hg) as (Hdir & _ & _ & Hw1).
  rewrite (updateFilters_body_claimed env fs w fs1 w1 i uf Hg Hi).
  assert (Hn : (nextFilterID env w1).1 = ID uf) by exact Hid.
  rewrite Hn.
  assert (Hp : filterPath fs1 (set_ID (ID uf) uf) = filterPath fs uf)
    by (unfold filterPath; now rewrite Hdir).
  assert (Hw' : write_fails env (filterPath fs1 (set_ID (ID uf) uf)) = false)
    by now rewrite Hp.
  rewrite (downloadFilter_success env fs1 (set_ID (ID uf) uf) _ body Hd Hw').
  do 2 eexists. split; [reflexivity |].
  cbn [files]. rewrite Hp. apply lookup_insert_eq.
Qed.

Lemma scheduled_download_overwrites_served_file_witness :
  getNextToUpdate env_second_6 store_six world_six
    = (store_six_claimed, world_six_claimed, Some 0) /\
  Proxylist (conf store_six_claimed) !! 0 = Some filterSix_claimed /\
  ID filterSix_claimed = 6%N /\
  files world_six !! filterPath store_six filterSix_claimed = Some body_old /\
  exists fs' w',
    updateFilters_body env_second_6 store_six world_six = Continue fs' w' /\
    files w' !! filterPath store_six filterSix_claimed = Some body_ex.
Proof.
  assert (Hg : getNextToUpdate env_second_6 store_six world_six
               = (store_six_claimed, world_six_claimed, Some 0))
    by (vm_compute; reflexivity).
  assert (Hi : Proxylist (conf store_six_claimed) !! 0 = Some filterSix_claimed)
    by (vm_compute; reflexivity).
  split; [exact Hg | split; [exact Hi | split; [reflexivity |]]].
  split; [vm_compute; reflexivity |].
  exact (proj2 (scheduled_download_overwrites_served_file env_second_6
                  store_six world_six store_six_claimed world_six_claimed 0
                  filterSix_claimed body_ex Hg Hi
                  ltac:(vm_compute; reflexivity) eq_refl eq_refl)).
Defined.

(** C7.  Two runs in which a download succeeds and the file that is
    served does not hold the downloaded body after the swap applier, or
    changes before it.  In second 6 on [store_six] the turn that
    refreshes the record whose id is 6 ends with the new body in the
    file that is served.  In second 6 on [store_ab] the turns that
    refresh [filterA] and [filterB] both download under the id 6; the
    swap applier then puts the body of [filterB] in the file of
    [filterA], and the file of [filterB] is left with what it held. *)
Theorem refresh_round_trip_broken_by_shared_id :
  (exists fs' w',
     updateFilters_body env_second_6 store_six world_six = Continue fs' w' /\
     download env_second_6 (URL filterSix) = inl body_ex /\
     files world_six !! filterPath store_six filterSix = Some body_old /\
     files w' !! filterPath store_six filterSix = Some body_ex) /\
  (exists fs2 w2,
     updateFilters 2 env_second_6_ab store_ab world_ab = Continue fs2 w2 /\
     download env_second_6_ab (URL filterA) = inl body_a /\
     download env_second_6_ab (URL filterB) = inl body_b /\
     map newID (Proxylist (conf fs2)) = [6%N; 6%N] /\
     files w2 !! filterPath store_ab filterA = Some body_old /\
     files w2 !! filterPath store_ab filterB = Some body_old /\
     files (applyUpdate env_second_6_ab fs2 w2).2 !! filterPath store_ab filterA
       = Some body_b /\
     files (applyUpdate env_second_6_ab fs2 w2).2 !! filterPath store_ab filterB
       = Some body_old).
Proof.
  split; do 2 eexists; repeat split; vm_compute; reflexivity.
Qed.


(** The file of the record of the collection holds the body of the new
    record afterwards. *)
Example Add_overwrites_file_of_same_id :
  exists fs' w',
    Add env_second_6 filterA store_six world_six = (fs', w', None) /\
    map ID (Proxylist (conf fs')) = [6%N; 6%N] /\
    files world_six !! filterPath store_six filterSix = Some body_old /\
    files w' !! filterPath store_six filterSix = Some body_ex.
Proof. do 2 eexists. repeat split; vm_compute; reflexivity. Qed.
